(** * TaskFlick: the connectivity and fallback-generation pipeline

    A shallow embedding of the client-side pipeline of the TaskFlick app:
    - [connectionUtils]: [getPossibleServerUrls], [isUrlReachable],
      [discoverBackendUrl], [getApiUrl];
    - [aiTransformer]: [callApi], [extractResponseData], the three gateway
      operations [transformTaskToQuest], [generateMotivationalMessage],
      [generateAchievementBadge] and the local fallback generators.

    Asynchronous functions are run to completion one after the other, in a
    state-and-exception monad: the state holds what the JavaScript modules
    mutate (AsyncStorage, the module variable [discoveredBackendUrl]) and a
    log of the HTTP requests issued; everything the outside world decides
    (HTTP answers, connectivity, the clock, random draws, storage failures)
    is read from a [World], indexed by the number of interactions so far.
    Console logging is left out, except for the conversion to text of the
    arguments it prints through a template literal: that conversion can
    throw, and where it does the source is inside a [try] block. *)

From stdpp Require Import base strings list gmap pretty.
From Stdlib Require Import ZArith Lia Ascii.

Local Open Scope string_scope.
Local Open Scope list_scope.
Local Open Scope Z_scope.
Set Warnings "-register-all".

(** ** JavaScript values *)

(** The values the pipeline handles: [undefined] and data, that is [null],
    booleans, numbers, strings, arrays and plain objects of such values.
    Functions are not values of the model, so no property of an object or
    array of the model is callable.  Numbers are the integers that print in
    plain decimal notation ([JNum]) and the two infinities ([JInfinity],
    which [JSON.parse] returns for a literal too large for a double);
    objects are the lists of their own properties, in insertion order. *)
Inductive jsval : Type :=
  | JUndefined
  | JNull
  | JBool (b : bool)
  | JNum (n : Z)
  | JInfinity (negative : bool)
  | JStr (s : string)
  | JArr (items : list jsval)
  | JObj (fields : list (string * jsval)).

(** What [ToNumber] gives. *)
Inductive number : Type :=
  | NaN
  | Finite (n : Z)
  | Infinite (negative : bool).

(** What [obj[key]] gives on an object literal: a property of its own, or
    the built-in that [Object.prototype] holds under that name. *)
Inductive property : Type :=
  | Own (v : jsval)
  | Builtin (name : string).

(** Truthiness, as [if (v)], [!v], [a || b] and [a && b] test it. *)
Definition truthy (v : jsval) : bool :=
  match v with
  | JUndefined | JNull => false
  | JBool b => b
  | JNum n => negb (n =? 0)%Z
  | JStr s => negb (String.eqb s EmptyString)
  | JInfinity _ | JArr _ | JObj _ => true
  end.

(** [a || b] and [a && b] on values. *)
Definition js_or (a b : jsval) : jsval := if truthy a then a else b.
Definition js_and (a b : jsval) : jsval := if truthy a then b else a.

(** Truthiness of a string that may be [null] or [undefined]. *)
Definition truthy_str (o : option string) : bool :=
  match o with
  | Some s => negb (String.eqb s EmptyString)
  | None => false
  end.

(** Own-property lookup in a property list. *)
Fixpoint assoc (k : string) (l : list (string * jsval)) : option jsval :=
  match l with
  | [] => None
  | (k', v) :: r => if String.eqb k k' then Some v else assoc k r
  end.

(** [v.name] for a value that is neither [null] nor [undefined], and a name
    that no prototype defines (all names the pipeline reads are such:
    success, data, message, timestamp, questTitle, questNarrative,
    motivationalMessage). *)
Definition get_prop (v : jsval) (name : string) : jsval :=
  match v with
  | JObj fs => default JUndefined (assoc name fs)
  | _ => JUndefined
  end.

(** [obj[k] = v]: replaces in place, or appends. *)
Fixpoint set_field (k : string) (v : jsval) (l : list (string * jsval))
  : list (string * jsval) :=
  match l with
  | [] => [(k, v)]
  | (k', v') :: r =>
      if String.eqb k k' then (k, v) :: r else (k', v') :: set_field k v r
  end.

(** Removing a property (the rest pattern [{ success, message, ...data }]). *)
Definition remove_field (k : string) (l : list (string * jsval))
  : list (string * jsval) :=
  filter (fun kv => negb (String.eqb k kv.1) = true) l.

(** The property names every object literal inherits. *)
Definition Object_prototype_names : list string :=
  ["constructor"; "__defineGetter__"; "__defineSetter__"; "hasOwnProperty";
   "__lookupGetter__"; "__lookupSetter__"; "isPrototypeOf";
   "propertyIsEnumerable"; "toString"; "valueOf"; "__proto__";
   "toLocaleString"].

Definition mem_string (s : string) (l : list string) : bool :=
  existsb (String.eqb s) l.

(** ** Strings

    Strings are sequences of characters.  Case mapping is the platform's
    ([String_toLowerCase] and [String_toUpperCase] below). *)

(** [s.startsWith(p)]. *)
Fixpoint startsWith (s p : string) {struct p} : bool :=
  match p, s with
  | EmptyString, _ => true
  | String _ _, EmptyString => false
  | String a p', String b s' => Ascii.eqb a b && startsWith s' p'
  end.


(** [s.endsWith(p)]. *)
Fixpoint endsWith (s p : string) : bool :=
  String.eqb s p ||
  match s with
  | EmptyString => false
  | String _ r => endsWith r p
  end.

(** [s.substring(1)] and [s.slice(1)]. *)
Definition drop_first (s : string) : string :=
  match s with
  | EmptyString => EmptyString
  | String _ r => r
  end.

(** [s.split(':')[0]]: the text before the first colon. *)
Fixpoint before_colon (s : string) : string :=
  match s with
  | EmptyString => EmptyString
  | String c r => if Ascii.eqb c ":" then EmptyString else String c (before_colon r)
  end.

(** Joining texts with a separator ([Array.prototype.join]). *)
Fixpoint join (sep : string) (l : list string) : string :=
  match l with
  | [] => EmptyString
  | [x] => x
  | x :: r => x +:+ sep +:+ join sep r
  end.

(** ** The platform *)

(** What the JavaScript engine provides and the repository only calls. *)
Class Platform : Type := {
  (** [JSON.stringify(v)] *)
  JSON_stringify : jsval -> string;
  (** [JSON.parse(text)]; [None] when it throws a SyntaxError *)
  JSON_parse : string -> option jsval;
  (** [Number(text)] *)
  Number_of_string : string -> number;
  (** the text of a [Math.random()] draw [k / 2^53] in a template literal *)
  random_toString : N -> string;
  (** the text, in a template literal, of the built-in that
      [Object.prototype] holds under a name *)
  native_toString : string -> string;
  (** [text.toLowerCase()] *)
  String_toLowerCase : string -> string;
  (** [text.toUpperCase()] *)
  String_toUpperCase : string -> string
}.

(** The configuration the modules read when they load. *)
Record Manifest : Type := {
  debuggerHost : option string;
  manifest_hostUri : option string
}.

Class Config : Type := {
  (** [process.env.EXPO_PUBLIC_API_URL] *)
  EXPO_PUBLIC_API_URL : option string;
  (** [process.env.EXPO_PUBLIC_USE_BACKEND_GENERATION] *)
  EXPO_PUBLIC_USE_BACKEND_GENERATION : jsval;
  (** [Number(process.env.EXPO_PUBLIC_CACHE_EXPIRY_HOURS)]; [None] for NaN *)
  EXPO_PUBLIC_CACHE_EXPIRY_HOURS : option Z;
  (** [Platform.OS] *)
  Platform_OS : string;
  (** [Constants.expoConfig?.hostUri] *)
  expoConfig_hostUri : option string;
  (** [Constants.manifest] *)
  Constants_manifest : option Manifest;
  (** [process.env.EXPO_PUBLIC_ENABLE_API_CACHE] *)
  EXPO_PUBLIC_ENABLE_API_CACHE : jsval
}.

(** ** The world *)

Record Request : Type := {
  req_url : string;
  req_method : string;
  req_body : option string
}.

(** An HTTP response: its status and its body text ([None]: reading the body
    fails). *)
Record Response : Type := {
  status : Z;
  body : option string
}.

(** [response.ok]: the status is in the range 200-299. *)
Definition ok (r : Response) : bool :=
  ((200 <=? status r) && (status r <=? 299))%Z.

Inductive FetchOutcome : Type :=
  | NetworkError (msg : string)   (* no route, refused, aborted on timeout *)
  | Answer (r : Response).

Inductive NetInfoOutcome : Type :=
  | NetInfoRejects (msg : string)
  | NetInfoState (isConnected : bool).

(** Everything decided outside the program, indexed by the number of
    interactions the program has had with the world so far. *)
Class World : Type := {
  fetch_answer : nat -> Request -> FetchOutcome;
  getItem_rejects : nat -> bool;
  setItem_rejects : nat -> bool;
  NetInfo_answer : nat -> NetInfoOutcome;
  clock : nat -> Z;
  random_draw : nat -> N
}.

(** ** State and effects *)

Record State : Type := {
  (** AsyncStorage *)
  storage : gmap string string;
  (** the module variable of aiTransformer *)
  discoveredBackendUrl : option string;
  (** the HTTP requests issued so far, oldest first *)
  requests : list Request;
  (** the number of interactions with the world so far *)
  tick : nat
}.

Definition advance (s : State) : State :=
  {| storage := storage s; discoveredBackendUrl := discoveredBackendUrl s;
     requests := requests s; tick := S (tick s) |}.

Definition with_storage (m : gmap string string) (s : State) : State :=
  {| storage := m; discoveredBackendUrl := discoveredBackendUrl s;
     requests := requests s; tick := tick s |}.

Definition with_discovered (u : option string) (s : State) : State :=
  {| storage := storage s; discoveredBackendUrl := u;
     requests := requests s; tick := tick s |}.

Definition with_request (r : Request) (s : State) : State :=
  {| storage := storage s; discoveredBackendUrl := discoveredBackendUrl s;
     requests := requests s ++ [r]; tick := tick s |}.

(** A computation returns a value or throws an [Error] with a message. *)
Inductive outcome (A : Type) : Type :=
  | Ret (a : A)
  | Throw (msg : string).
Arguments Ret {A} a.
Arguments Throw {A} msg.

Definition M (A : Type) : Type := State -> outcome A * State.

Definition ret {A} (a : A) : M A := fun s => (Ret a, s).
Definition throw {A} (msg : string) : M A := fun s => (Throw msg, s).

Definition bind {A B} (c : M A) (k : A -> M B) : M B :=
  fun s =>
    match c s with
    | (Ret a, s') => k a s'
    | (Throw e, s') => (Throw e, s')
    end.

(** [try { c } catch (error) { h error.message }] *)
Definition try_catch {A} (c : M A) (h : string -> M A) : M A :=
  fun s =>
    match c s with
    | (Ret a, s') => (Ret a, s')
    | (Throw e, s') => h e s'
    end.

(** Sequencing of functions without effects, which may throw. *)
Definition and_then {A B} (o : outcome A) (k : A -> outcome B) : outcome B :=
  match o with
  | Ret a => k a
  | Throw e => Throw e
  end.

Declare Scope js_scope.
Delimit Scope js_scope with js.
Notation "x <- c ;; k" := (bind c (fun x => k))
  (at level 100, c at next level, right associativity) : js_scope.
Notation "c ;;; k" := (bind c (fun _ => k))
  (at level 100, right associativity) : js_scope.
Notation "x <~ o ;; k" := (and_then o (fun x => k))
  (at level 100, o at next level, right associativity) : js_scope.
Local Open Scope js_scope.

Section Pipeline.
Context {P : Platform} {C : Config} {W : World}.

(** ** Conversions of the language *)

Definition not_convertible : string :=
  "TypeError: Cannot convert object to primitive value".

(** A value in a template literal or as a property key.  An array is joined
    ([Array.prototype.toString]), which converts its elements in turn.  A
    plain object is printed by the [toString] it inherits, unless it has a
    property [toString] of its own: that property is not callable, an own
    [valueOf] is not either and the inherited [valueOf] returns the object
    itself, so the conversion throws a TypeError. *)
Fixpoint js_toString (v : jsval) : outcome string :=
  match v with
  | JUndefined => Ret "undefined"
  | JNull => Ret "null"
  | JBool true => Ret "true"
  | JBool false => Ret "false"
  | JNum n => Ret (pretty n)
  | JInfinity negative => Ret (if negative then "-Infinity" else "Infinity")
  | JStr s => Ret s
  | JArr items =>
      texts <~ (fix elements (l : list jsval) : outcome (list string) :=
                  match l with
                  | [] => Ret []
                  | x :: rest =>
                      text <~ match x with
                              | JUndefined | JNull => Ret EmptyString
                              | _ => js_toString x
                              end ;;
                      texts <~ elements rest ;;
                      Ret (text :: texts)
                  end) items ;;
      Ret (join "," texts)
  | JObj fields =>
      match assoc "toString" fields with
      | Some _ => Throw not_convertible
      | None => Ret "[object Object]"
      end
  end.



(** A value as the operand of a subtraction.  An array or object is first
    converted to a primitive: the inherited [valueOf] returns the object
    itself (an own one is not callable), so its text is what counts. *)
Definition js_toNumber (v : jsval) : outcome number :=
  match v with
  | JUndefined => Ret NaN
  | JNull => Ret (Finite 0)
  | JBool b => Ret (Finite (if b then 1 else 0))
  | JNum n => Ret (Finite n)
  | JInfinity negative => Ret (Infinite negative)
  | JStr s => Ret (Number_of_string s)
  | JArr _ | JObj _ => text <~ js_toString v ;; Ret (Number_of_string text)
  end.


(** [{ ...v }]: the own enumerable properties of a value. *)
Definition own_properties (v : jsval) : list (string * jsval) :=
  match v with
  | JObj fs => fs
  | JArr items => imap (fun i x => (pretty i, x)) items
  | JStr s =>
      imap (fun i c => (pretty i, JStr (String c EmptyString))) (String.list_ascii_of_string s)
  | _ => []
  end.

(** ** The primitives of the runtime *)

Definition AsyncStorage_getItem (key : string) : M (option string) :=
  fun s =>
    if getItem_rejects (tick s)
    then (Throw "AsyncStorage.getItem failed", advance s)
    else (Ret (storage s !! key), advance s).

Definition AsyncStorage_setItem (key value : string) : M unit :=
  fun s =>
    if setItem_rejects (tick s)
    then (Throw "AsyncStorage.setItem failed", advance s)
    else (Ret tt, advance (with_storage (<[key := value]> (storage s)) s)).

(** [fetch(url, options)]: the request is logged, the world answers. *)
Definition fetch (req : Request) : M Response :=
  fun s =>
    let s' := advance (with_request req s) in
    match fetch_answer (tick s) req with
    | NetworkError msg => (Throw msg, s')
    | Answer r => (Ret r, s')
    end.

(** [response.json()] *)
Definition response_json (r : Response) : M jsval :=
  match body r with
  | None => throw "Failed to read the response body"
  | Some text =>
      match JSON_parse text with
      | None => throw "JSON Parse error"
      | Some v => ret v
      end
  end.

(** [response.text()] *)
Definition response_text (r : Response) : M string :=
  match body r with
  | None => throw "Failed to read the response body"
  | Some text => ret text
  end.

(** [(await NetInfo.fetch()).isConnected] *)
Definition NetInfo_fetch : M bool :=
  fun s =>
    match NetInfo_answer (tick s) with
    | NetInfoRejects msg => (Throw msg, advance s)
    | NetInfoState b => (Ret b, advance s)
    end.

(** [Date.now()]: reading the clock is not an interaction of its own; time
    passes between interactions. *)
Definition Date_now : M Z := fun s => (Ret (clock (tick s)), s).

(** [Math.random()]: the draw is [k / 2^53] for the [k] returned. *)
Definition Math_random : M N :=
  fun s => (Ret (random_draw (tick s) mod 2 ^ 53)%N, advance s).

(** The multiple [m / 2^53] as a double: [m] rounded to 53 significant
    bits, to the nearest and on a tie to the even one. *)
Definition round_to_double (m : N) : N :=
  let excess := (N.size m - 53)%N in
  if (excess =? 0)%N then m
  else
    let unit := (2 ^ excess)%N in
    let q := (m / unit)%N in
    let r := (m mod unit)%N in
    let half := (unit / 2)%N in
    if (half <? r)%N || ((r =? half)%N && N.odd q)
    then ((q + 1) * unit)%N
    else (q * unit)%N.

(** [Math.floor(r * n)] for a draw [r = k / 2^53]: the product is the
    double nearest to [k * n / 2^53]. *)
Definition floor_scaled (k : N) (n : nat) : nat :=
  N.to_nat (round_to_double (k * N.of_nat n) / 2 ^ 53).

(** ** connectionUtils *)

(** [[...new Set(urls)]]: each element is kept where it is first seen. *)
Fixpoint Set_add_all (seen : list string) (urls : list string) : list string :=
  match urls with
  | [] => seen
  | u :: rest =>
      if mem_string u seen then Set_add_all seen rest
      else Set_add_all (seen ++ [u]) rest
  end.

Definition Set_spread (urls : list string) : list string := Set_add_all [] urls.

(** [a || b] on strings that may be undefined. *)
Definition str_or (a b : option string) : option string :=
  if truthy_str a then a else b.

(** The Expo host, as read inside the [try] block. *)
Definition devServerHost : option string :=
  let h := expoConfig_hostUri in
  match Constants_manifest with
  | Some m =>
      if negb (truthy_str h) then str_or (debuggerHost m) (manifest_hostUri m)
      else h
  | None => h
  end.

(** The list [urls] before it is deduplicated. *)
Definition pushed_urls : list string :=
  let urls := if truthy_str EXPO_PUBLIC_API_URL
              then [default EmptyString EXPO_PUBLIC_API_URL] else [] in
  let urls := urls ++ ["http://localhost:3000/api"; "http://127.0.0.1:3000/api"] in
  let urls := if String.eqb Platform_OS "android"
              then urls ++ ["http://10.0.2.2:3000/api"] else urls in
  let urls := if String.eqb Platform_OS "ios"
              then urls ++ ["http://localhost:3000/api"] else urls in
  if truthy_str devServerHost then
    let host := before_colon (default EmptyString devServerHost) in
    if negb (String.eqb host EmptyString) && negb (String.eqb host "localhost")
       && negb (String.eqb host "127.0.0.1")
    then urls ++ ["http://" +:+ host +:+ ":3000/api"]
    else urls
  else urls ++ ["http://192.168.1.1:3000/api"; "http://192.168.0.1:3000/api"].

Definition getPossibleServerUrls : list string := Set_spread pushed_urls.

Definition health_url (url : string) : string :=
  if endsWith url "/api" then url +:+ "/health" else url +:+ "/api/health".

Definition health_request (url : string) : Request :=
  {| req_url := health_url url; req_method := "GET"; req_body := None |}.

Definition isUrlReachable (url : string) : M bool :=
  try_catch
    (response <- fetch (health_request url) ;;
     if ok response
     then (data <- response_json response ;; ret true)
     else ret false)
    (fun _ => ret false).

(** The first [try] block of [discoverBackendUrl]: [Some url] is its early
    [return cachedUrl]. *)
Definition check_cached_url : M (option string) :=
  try_catch
    (cachedUrl <- AsyncStorage_getItem "working_backend_url" ;;
     if truthy_str cachedUrl then
       (isReachable <- isUrlReachable (default EmptyString cachedUrl) ;;
        if isReachable then ret cachedUrl else ret None)
     else ret None)
    (fun _ => ret None).

(** The [for (const url of urls)] loop. *)
Fixpoint probe_candidates (urls : list string) : M (option string) :=
  match urls with
  | [] => ret None
  | url :: rest =>
      isReachable <- isUrlReachable url ;;
      if isReachable then
        (try_catch (AsyncStorage_setItem "working_backend_url" url)
                   (fun _ => ret tt) ;;;
         ret (Some url))
      else probe_candidates rest
  end.

(** [discoverBackendUrl]: [None] is [null]. *)
Definition discoverBackendUrl : M (option string) :=
  cached <- check_cached_url ;;
  match cached with
  | Some url => ret (Some url)
  | None =>
      isConnected <- NetInfo_fetch ;;
      if negb isConnected then ret None
      else probe_candidates getPossibleServerUrls
  end.

Definition getApiUrl (endpoint : string) (baseUrl : option string)
  : M (option string) :=
  backendUrl <- (if truthy_str baseUrl then ret baseUrl else discoverBackendUrl) ;;
  if negb (truthy_str backendUrl) then ret None
  else
    let backendUrl := default EmptyString backendUrl in
    let normalizedEndpoint :=
      if startsWith endpoint "/" then drop_first endpoint else endpoint in
    if endsWith backendUrl "/api" then
      ret (Some (backendUrl +:+ "/" +:+ normalizedEndpoint))
    else if endsWith backendUrl "/" then
      ret (Some (backendUrl +:+ "api/" +:+ normalizedEndpoint))
    else
      ret (Some (backendUrl +:+ "/api/" +:+ normalizedEndpoint)).

(** ** aiTransformer: configuration *)

Definition env_enabled (v : jsval) : bool :=
  match v with
  | JStr s => String.eqb s "true"
  | JBool b => b
  | _ => false
  end.

Definition USE_BACKEND_GENERATION : bool :=
  env_enabled EXPO_PUBLIC_USE_BACKEND_GENERATION || false.

(** The expression of the source ends in [|| true]. *)
Definition ENABLE_API_CACHE : bool :=
  env_enabled EXPO_PUBLIC_ENABLE_API_CACHE || true.

(** [(Number(hours) || 24) * 60 * 60 * 1000] *)
Definition CACHE_EXPIRY : Z :=
  (match EXPO_PUBLIC_CACHE_EXPIRY_HOURS with
   | Some h => if (h =? 0)%Z then 24 else h
   | None => 24
   end) * 60 * 60 * 1000.

(** ** aiTransformer: the remote call *)

(** A function without effects, which may throw. *)
Definition lift {A} (o : outcome A) : M A := fun s => (o, s).

(** [v.name], which throws a TypeError on [null] and [undefined]. *)
Definition read_prop (v : jsval) (name : string) : outcome jsval :=
  match v with
  | JUndefined | JNull => Throw "TypeError: cannot read a property of null or undefined"
  | _ => Ret (get_prop v name)
  end.

Definition is_true (v : jsval) : bool :=
  match v with JBool true => true | _ => false end.
Definition is_undefined (v : jsval) : bool :=
  match v with JUndefined => true | _ => false end.

Definition extractResponseData (response : jsval) : outcome jsval :=
  match read_prop response "success" with
  | Throw e => Throw e
  | Ret success =>
      if is_true success && negb (is_undefined (get_prop response "data"))
      then Ret (get_prop response "data")
      else if is_true success
      then Ret (JObj (remove_field "message"
                        (remove_field "success" (own_properties response))))
      else Ret response
  end.

Definition cacheKey_of (endpoint : string) (body : jsval) : string :=
  "taskflick_cache_" +:+ endpoint +:+ "_" +:+
  (if truthy body then JSON_stringify body else EmptyString).

(** [endpoint !== 'motivational-message'] under [ENABLE_API_CACHE]. *)
Definition cacheable (endpoint : string) : bool :=
  ENABLE_API_CACHE && negb (String.eqb endpoint "motivational-message").

(** [now - timestamp < CACHE_EXPIRY], once the timestamp is a number. *)
Definition not_expired (now : Z) (timestamp : number) : bool :=
  match timestamp with
  | Finite t => (now - t <? CACHE_EXPIRY)%Z
  | Infinite negative => negb negative
  | NaN => false
  end.

(** The cache lookup of [callApi]: [Some data] is its early [return data]. *)
Definition cache_read (endpoint cacheKey : string) : M (option jsval) :=
  if cacheable endpoint then
    try_catch
      (cachedData <- AsyncStorage_getItem cacheKey ;;
       if truthy_str cachedData then
         match JSON_parse (default EmptyString cachedData) with
         | None => throw "JSON Parse error"
         | Some JUndefined | Some JNull => throw "TypeError: cannot destructure"
         | Some entry =>
             now <- Date_now ;;
             timestamp <- lift (js_toNumber (get_prop entry "timestamp")) ;;
             if not_expired now timestamp
             then ret (Some (get_prop entry "data"))
             else ret None
         end
       else ret None)
      (fun _ => ret None)
  else ret None.

Definition cache_entry (data : jsval) (timestamp : Z) : jsval :=
  JObj [("data", data); ("timestamp", JNum timestamp)].

(** The cache write of [callApi], with its own [try]. *)
Definition cache_write (endpoint cacheKey : string) (result : jsval) : M unit :=
  if cacheable endpoint then
    success <- lift (read_prop result "success") ;;
    if is_undefined success || is_true success then
      try_catch
        (dataToCache <- lift (extractResponseData result) ;;
         now <- Date_now ;;
         AsyncStorage_setItem cacheKey (JSON_stringify (cache_entry dataToCache now)))
        (fun _ => ret tt)
    else ret tt
  else ret tt.

Definition get_discovered : M (option string) :=
  fun s => (Ret (discoveredBackendUrl s), s).
Definition set_discovered (u : option string) : M unit :=
  fun s => (Ret tt, with_discovered u s).

(** "Ensure we have a discovered backend URL". *)
Definition ensure_backend : M unit :=
  known <- get_discovered ;;
  if negb (truthy_str known) then
    found <- discoverBackendUrl ;;
    set_discovered found ;;;
    if negb (truthy_str found) then throw "Cannot connect to backend server"
    else ret tt
  else ret tt.

(** [callApi] after a cache miss: discovery, the request, the cache write. *)
Definition remote_call (endpoint method : string) (body : jsval) (cacheKey : string)
  : M jsval :=
  ensure_backend ;;;
  base <- get_discovered ;;
  fullUrl <- getApiUrl endpoint base ;;
  if negb (truthy_str fullUrl) then throw "Failed to construct API URL"
  else
    response <- fetch {| req_url := default EmptyString fullUrl;
                         req_method := method;
                         req_body := if truthy body then Some (JSON_stringify body)
                                     else None |} ;;
    if negb (ok response) then
      errorText <- response_text response ;;
      throw ("API error: " +:+ pretty (status response) +:+ " - " +:+ errorText)
    else
      result <- response_json response ;;
      cache_write endpoint cacheKey result ;;;
      lift (extractResponseData result).

Definition callApi (endpoint method : string) (body : jsval) : M jsval :=
  try_catch
    (if negb USE_BACKEND_GENERATION
     then throw "Backend generation disabled by configuration"
     else
       let cacheKey := cacheKey_of endpoint body in
       hit <- cache_read endpoint cacheKey ;;
       match hit with
       | Some data => ret data
       | None => remote_call endpoint method body cacheKey
       end)
    (fun error => throw error).

(** ** aiTransformer: the local fallback generators *)

(** [obj[key]] on an object literal: its own properties, then what it
    inherits from [Object.prototype]. *)
Definition literal_lookup (own : list (string * jsval)) (key : string) : property :=
  match assoc key own with
  | Some v => Own v
  | None =>
      if mem_string key Object_prototype_names then Builtin key else Own JUndefined
  end.

(** The built-ins are functions, and [Object.prototype] itself under
    [__proto__]: all truthy, none with an enumerable property of its own. *)
Definition property_truthy (p : property) : bool :=
  match p with
  | Own v => truthy v
  | Builtin _ => true
  end.




(** [list[index]] on an array of strings. *)
Definition string_at (l : list string) (index : nat) : jsval :=
  match l !! index with
  | Some s => JStr s
  | None => JUndefined
  end.






Definition motivational_messages : list string :=
  [ "The path to greatness is paved with completed quests!";
    "Even the mightiest heroes began with small victories. Keep going!";
    "Your quest log grows more impressive each day. The kingdom notices your deeds!";
    "The greatest adventure is the one that transforms you. Onward!";
    "A true hero knows that persistence unlocks all achievements.";
    "Your journey inspires others around you. Continue your noble path!";
    "Each completed quest brings you closer to legendary status.";
    "The rewards of consistency are waiting just over the horizon.";
    "Your dedication to your quests shapes your destiny.";
    "Today's small victory is tomorrow's epic tale!" ].

Definition fallbackGenerateMotivationalMessage : M jsval :=
  r <- Math_random ;;
  let randomIndex := floor_scaled r (length motivational_messages) in
  ret (string_at motivational_messages randomIndex).

Definition badge (badgeName badgeDescription iconType : string) : jsval :=
  JObj [ ("badgeName", JStr badgeName);
         ("badgeDescription", JStr badgeDescription);
         ("iconType", JStr iconType) ].

Definition defaultBadges : list (string * jsval) :=
  [ ("First Quest",
     badge "Brave First Step"
           "You completed your first quest and began your adventure!" "boot");
    ("Quest Novice",
     badge "Quest Seeker"
           "You completed 5 quests and are developing your adventuring skills." "scroll");
    ("Quest Adept",
     badge "Quest Champion"
           "With 10 quests completed, your reputation grows throughout the realm." "shield");
    ("Quest Master",
     badge "Quest Legend"
           "After 25 quests, bards sing tales of your legendary accomplishments!" "crown");
    ("Consistent Adventurer",
     badge "Steadfast Journeyer"
           "You maintained focus for 3 days straight. Your persistence is remarkable!" "calendar");
    ("Weekly Warrior",
     badge "Hero of the Week"
           "A full week of continuous progress! Few adventurers show such dedication." "star");
    ("Point Collector",
     badge "XP Gatherer"
           "You've accumulated 100 XP points through your noble deeds." "gem");
    ("XP Hunter",
     badge "XP Virtuoso"
           "With 500 XP points, your power in the realm is undeniable!" "trophy") ].

Definition fallbackGenerateAchievementBadge (achievementType milestone : jsval)
  : outcome property :=
  key <~ js_toString achievementType ;;
  let found := literal_lookup defaultBadges key in
  if property_truthy found then Ret found
  else
    name <~ js_toString achievementType ;;
    reached <~ js_toString milestone ;;
    Ret (Own (badge (name +:+ " Master")
                    ("You've reached the impressive milestone of "
                     +:+ reached +:+ "!")
                    "medal")).

(** ** aiTransformer: the gateway operations *)

Definition local_generation : string :=
  "Using local generation based on .env configuration".


(** [typeof v === 'object'] *)
Definition typeof_object (v : jsval) : bool :=
  match v with
  | JNull | JArr _ | JObj _ => true
  | _ => false
  end.

Definition unique_endpoint (r : N) : string :=
  "motivational-message?random=" +:+ random_toString r.

Definition generateMotivationalMessage : M jsval :=
  try_catch
    (if USE_BACKEND_GENERATION then
       r <- Math_random ;;
       let uniqueEndpoint := unique_endpoint r in
       result <- callApi uniqueEndpoint "GET" JNull ;;
       if truthy result && truthy (get_prop result "motivationalMessage") then
         ret (get_prop result "motivationalMessage")
       else if truthy result && typeof_object result then
         ret (js_or (get_prop result "motivationalMessage")
             (js_or (get_prop result "message")
             (js_or (js_and (get_prop result "data")
                            (get_prop (get_prop result "data") "motivationalMessage"))
                    (JStr "Your adventure awaits, brave hero!"))))
       else ret result
     else throw local_generation)
    (fun _ => fallbackGenerateMotivationalMessage).

(** [{ ...p, isAIGenerated: flag }] *)
Definition with_provenance (p : property) (flag : bool) : jsval :=
  JObj (set_field "isAIGenerated" (JBool flag)
          (match p with
           | Own v => own_properties v
           | Builtin _ => []
           end)).

Definition generateAchievementBadge (achievementType milestone : jsval) : M jsval :=
  try_catch
    (lift (js_toString achievementType) ;;;   (* the template literal of the log line *)
     if USE_BACKEND_GENERATION then
       let payload := JObj [("achievementType", achievementType);
                            ("milestone", milestone)] in
       result <- callApi "achievement-badge" "POST" payload ;;
       ret (with_provenance (Own result) true)
     else throw local_generation)
    (fun _ =>
       fallbackBadge <-
         lift (fallbackGenerateAchievementBadge achievementType milestone) ;;
       ret (with_provenance fallbackBadge false)).

End Pipeline.

(** ** Observations on runs *)
Section Observations.
Context {P : Platform} {C : Config} {W : World}.

(** What the world makes of a health check issued at interaction [n]. *)
Definition probe_verdict (n : nat) (url : string) : bool :=
  match fetch_answer n (health_request url) with
  | NetworkError _ => false
  | Answer r =>
      ok r && match body r with
              | Some text => bool_decide (is_Some (JSON_parse text))
              | None => false
              end
  end.

(** The position at which a text is first seen in a list. *)
Fixpoint first_index (x : string) (l : list string) : option nat :=
  match l with
  | [] => None
  | y :: r => if String.eqb x y then Some O else S <$> first_index x r
  end.

(** What discovery leaves alone: the storage entry under [key] and the
    requests already issued. *)
Record untouched (key : string) (s s' : State) : Prop := {
  same_entry : storage s' !! key = storage s !! key;
  more_requests : exists more, requests s' = requests s ++ more
}.






(** The URL [getApiUrl] builds from a base URL and an endpoint. *)
Definition api_url (base endpoint : string) : string :=
  let normalizedEndpoint :=
    if startsWith endpoint "/" then drop_first endpoint else endpoint in
  if endsWith base "/api" then base +:+ "/" +:+ normalizedEndpoint
  else if endsWith base "/" then base +:+ "api/" +:+ normalizedEndpoint
  else base +:+ "/api/" +:+ normalizedEndpoint.

(** The request [callApi] sends to a URL. *)
Definition api_request (method : string) (payload : jsval) (url : string) : Request :=
  {| req_url := url; req_method := method;
     req_body := if truthy payload then Some (JSON_stringify payload) else None |}.

(** What [callApi] makes of the world's answer to its request. *)
Definition result_of_answer (answer : FetchOutcome) : outcome jsval :=
  match answer with
  | NetworkError msg => Throw msg
  | Answer r =>
      match body r with
      | None => Throw "Failed to read the response body"
      | Some text =>
          if ok r then
            match JSON_parse text with
            | Some result => extractResponseData result
            | None => Throw "JSON Parse error"
            end
          else Throw ("API error: " +:+ pretty (status r) +:+ " - " +:+ text)
      end
  end.

(** The health payload as the interface table of the specification gives
    it: an object with a status, a message, a version and an array of
    endpoints. *)
Definition expected_health_payload (v : jsval) : bool :=
  match v with
  | JObj fields =>
      bool_decide (is_Some (assoc "status" fields))
      && bool_decide (is_Some (assoc "message" fields))
      && bool_decide (is_Some (assoc "version" fields))
      && match assoc "endpoints" fields with
         | Some (JArr _) => true
         | _ => false
         end
  | _ => false
  end.

End Observations.

(** ** A reference platform

    A small JSON printer and reader, used to run the pipeline on concrete
    inputs: texts of ASCII characters, numbers written as decimal integers
    with an optional exponent. *)
Module Reference.

Definition is_upper (c : ascii) : bool :=
  let n := nat_of_ascii c in (65 <=? n)%nat && (n <=? 90)%nat.
Definition is_lower (c : ascii) : bool :=
  let n := nat_of_ascii c in (97 <=? n)%nat && (n <=? 122)%nat.
Definition lower_char (c : ascii) : ascii :=
  if is_upper c then ascii_of_nat (nat_of_ascii c + 32) else c.
Definition upper_char (c : ascii) : ascii :=
  if is_lower c then ascii_of_nat (nat_of_ascii c - 32) else c.

(** Case mapping of the ASCII letters. *)
Fixpoint toLowerCase (s : string) : string :=
  match s with
  | EmptyString => EmptyString
  | String c r => String (lower_char c) (toLowerCase r)
  end.

Fixpoint toUpperCase (s : string) : string :=
  match s with
  | EmptyString => EmptyString
  | String c r => String (upper_char c) (toUpperCase r)
  end.

Definition dquote : ascii := ascii_of_nat 34.
Definition backslash : ascii := ascii_of_nat 92.

Fixpoint escape (s : string) : string :=
  match s with
  | EmptyString => EmptyString
  | String c r =>
      if Ascii.eqb c dquote || Ascii.eqb c backslash
      then String backslash (String c (escape r))
      else String c (escape r)
  end.

Definition quote (s : string) : string :=
  String dquote (escape s) +:+ String dquote EmptyString.

(** [undefined] is left out of objects and printed as [null] in arrays. *)
Definition omitted (v : jsval) : bool :=
  match v with
  | JUndefined => true
  | _ => false
  end.

(** A number that is not finite is printed as [null]. *)
Fixpoint stringify (v : jsval) : string :=
  match v with
  | JUndefined => "undefined"
  | JNull | JInfinity _ => "null"
  | JBool true => "true"
  | JBool false => "false"
  | JNum n => pretty n
  | JStr s => quote s
  | JArr items =>
      "[" +:+ join "," (map (fun x => if omitted x then "null" else stringify x) items)
          +:+ "]"
  | JObj fields =>
      "{" +:+ join "," (flat_map (fun kv => if omitted (snd kv) then []
                                            else [quote (fst kv) +:+ ":" +:+ stringify (snd kv)])
                                 fields)
          +:+ "}"
  end.

Definition is_digit (c : ascii) : bool :=
  let n := nat_of_ascii c in (48 <=? n)%nat && (n <=? 57)%nat.

(** The digits at the head of a text, as a number, and the rest. *)
Fixpoint read_digits (acc : Z) (s : string) : Z * string :=
  match s with
  | String c r =>
      if is_digit c then read_digits (10 * acc + Z.of_nat (nat_of_ascii c - 48)) r
      else (acc, s)
  | EmptyString => (acc, s)
  end.

Definition read_number (s : string) : option (Z * string) :=
  match s with
  | String c r =>
      if Ascii.eqb c "-" then
        match r with
        | String d _ => if is_digit d
                        then let (n, rest) := read_digits 0 r in Some (- n, rest)
                        else None
        | EmptyString => None
        end
      else if is_digit c then Some (read_digits 0 s)
      else None
  | EmptyString => None
  end.

(** The text of a string literal after its opening quote, and the rest. *)
Fixpoint read_string (s : string) : option (string * string) :=
  match s with
  | EmptyString => None
  | String c r =>
      if Ascii.eqb c dquote then Some (EmptyString, r)
      else if Ascii.eqb c backslash then
        match r with
        | String e r' =>
            match read_string r' with
            | Some (t, rest) => Some (String e t, rest)
            | None => None
            end
        | EmptyString => None
        end
      else
        match read_string r with
        | Some (t, rest) => Some (String c t, rest)
        | None => None
        end
  end.

Definition skip (n : nat) (s : string) : string := String.substring n (String.length s - n) s.

(** The exponent that may follow the digits of a number: [e] or [E], an
    optional [+], digits. *)
Definition read_exponent (s : string) : option (Z * string) :=
  match s with
  | String c r =>
      if Ascii.eqb c "e" || Ascii.eqb c "E" then
        let r := if startsWith r "+" then skip 1 r else r in
        match r with
        | String d _ => if is_digit d then Some (read_digits 0 r) else None
        | EmptyString => None
        end
      else None
  | EmptyString => None
  end.

(** The value of [n * 10^e]: a magnitude of [2^1024] or more is beyond the
    doubles and reads as an infinity. *)
Definition scaled (n e : Z) : jsval :=
  let v := (n * 10 ^ e)%Z in
  if (2 ^ 1024 <=? Z.abs v)%Z then JInfinity (v <? 0)%Z else JNum v.

Definition read_literal (s : string) : option (jsval * string) :=
  match read_number s with
  | Some (n, rest) =>
      match read_exponent rest with
      | Some (e, rest') => Some (scaled n e, rest')
      | None => Some (JNum n, rest)
      end
  | None => None
  end.

Fixpoint read_value (fuel : nat) (s : string) {struct fuel} : option (jsval * string) :=
  match fuel with
  | O => None
  | S fuel' =>
      if startsWith s "null" then Some (JNull, skip 4 s)
      else if startsWith s "true" then Some (JBool true, skip 4 s)
      else if startsWith s "false" then Some (JBool false, skip 5 s)
      else
        match s with
        | EmptyString => None
        | String c r =>
            if Ascii.eqb c dquote then
              match read_string r with
              | Some (t, rest) => Some (JStr t, rest)
              | None => None
              end
            else if Ascii.eqb c "[" then
              if startsWith r "]" then Some (JArr [], skip 1 r)
              else match read_items fuel' r with
                   | Some (items, rest) => Some (JArr items, rest)
                   | None => None
                   end
            else if Ascii.eqb c "{" then
              if startsWith r "}" then Some (JObj [], skip 1 r)
              else match read_members fuel' r with
                   | Some (fields, rest) => Some (JObj fields, rest)
                   | None => None
                   end
            else
              read_literal s
        end
  end
with read_items (fuel : nat) (s : string) {struct fuel}
  : option (list jsval * string) :=
  match fuel with
  | O => None
  | S fuel' =>
      match read_value fuel' s with
      | Some (v, String c rest) =>
          if Ascii.eqb c "," then
            match read_items fuel' rest with
            | Some (items, rest') => Some (v :: items, rest')
            | None => None
            end
          else if Ascii.eqb c "]" then Some ([v], rest)
          else None
      | _ => None
      end
  end
with read_members (fuel : nat) (s : string) {struct fuel}
  : option (list (string * jsval) * string) :=
  match fuel with
  | O => None
  | S fuel' =>
      match s with
      | String q r =>
          if Ascii.eqb q dquote then
            match read_string r with
            | Some (k, String colon r') =>
                if Ascii.eqb colon ":" then
                  match read_value fuel' r' with
                  | Some (v, String c rest) =>
                      if Ascii.eqb c "," then
                        match read_members fuel' rest with
                        | Some (fields, rest') => Some ((k, v) :: fields, rest')
                        | None => None
                        end
                      else if Ascii.eqb c "}" then Some ([(k, v)], rest)
                      else None
                  | _ => None
                  end
                else None
            | _ => None
            end
          else None
      | EmptyString => None
      end
  end.

Definition parse (text : string) : option jsval :=
  match read_value (2 * String.length text + 2) text with
  | Some (v, EmptyString) => Some v
  | _ => None
  end.

(** [Number(text)] on decimal integers and the infinities; the empty text
    is 0. *)
Definition number_of_string (text : string) : number :=
  if String.eqb text EmptyString then Finite 0
  else if String.eqb text "Infinity" || String.eqb text "+Infinity" then Infinite false
  else if String.eqb text "-Infinity" then Infinite true
  else match read_number text with
       | Some (n, EmptyString) => Finite n
       | _ => NaN
       end.

Fixpoint strip_zeros (digits : list ascii) : list ascii :=
  match digits with
  | [] => []
  | c :: r =>
      match strip_zeros r with
      | [] => if Ascii.eqb c "0" then [] else [c]
      | r' => c :: r'
      end
  end.

(** The decimal expansion of [k / 2^53]. *)
Definition random_text (k : N) : string :=
  let digits := String.list_ascii_of_string (pretty (k * 5 ^ 53)%N) in
  let padded := replicate (53 - length digits) "0"%char ++ digits in
  match strip_zeros padded with
  | [] => "0"
  | ds => "0." +:+ String.string_of_list_ascii ds
  end.

Definition native_text (name : string) : string :=
  if String.eqb name "__proto__" then "[object Object]"
  else "function " +:+ name +:+ "() { [native code] }".

Definition platform : Platform :=
  {| JSON_stringify := stringify;
     JSON_parse := parse;
     Number_of_string := number_of_string;
     random_toString := random_text;
     native_toString := native_text;
     String_toLowerCase := toLowerCase;
     String_toUpperCase := toUpperCase |}.

End Reference.

(** ** Concrete scenarios *)
Module Scenario.

Definition config (use_backend : jsval) (api_url : option string) : Config :=
  {| EXPO_PUBLIC_API_URL := api_url;
     EXPO_PUBLIC_USE_BACKEND_GENERATION := use_backend;
     EXPO_PUBLIC_CACHE_EXPIRY_HOURS := None;
     Platform_OS := "android";
     expoConfig_hostUri := Some "192.168.1.5:8081";
     Constants_manifest := None;
     EXPO_PUBLIC_ENABLE_API_CACHE := JUndefined |}.

(** Remote generation switched on, no override URL. *)
Definition enabled : Config := config (JStr "true") None.
(** An explicit override URL. *)
Definition overridden : Config := config (JStr "true") (Some "https://quests.example/api").

Definition json_answer (v : jsval) : FetchOutcome :=
  Answer {| status := 200; body := Some (Reference.stringify v) |}.

(** A backend on localhost that answers the health check and the three
    generation endpoints. *)
Definition backend (req : Request) : FetchOutcome :=
  if String.eqb (req_url req) "http://localhost:3000/api/health" then
    json_answer (JObj [("status", JStr "ok"); ("message", JStr "up")])
  else if startsWith (req_url req) "http://localhost:3000/api/motivational-message" then
    json_answer (JObj [("success", JBool true); ("motivationalMessage", JStr "Onward!")])
  else if String.eqb (req_url req) "http://localhost:3000/api/transform-task" then
    json_answer (JObj [("success", JBool true); ("questTitle", JStr "The Village Duty");
                       ("questNarrative", JStr "Restore order.")])
  else if String.eqb (req_url req) "http://localhost:3000/api/achievement-badge" then
    json_answer (JObj [("success", JBool true);
                       ("data", JObj [("badgeName", JStr "Pathfinder");
                                      ("badgeDescription", JStr "You found the way.")])])
  else NetworkError "Network request failed".

Definition epoch : Z := 1700000000000.

(** The backend is up and the device is connected; the draw is 1/2. *)
Definition online : World :=
  {| fetch_answer := fun _ => backend;
     getItem_rejects := fun _ => false;
     setItem_rejects := fun _ => false;
     NetInfo_answer := fun _ => NetInfoState true;
     clock := fun n => epoch + Z.of_nat n;
     random_draw := fun _ => (2 ^ 52)%N |}.

(** No network at all, at a given time. *)
Definition offline_at (now : Z) : World :=
  {| fetch_answer := fun _ _ => NetworkError "Network request failed";
     getItem_rejects := fun _ => false;
     setItem_rejects := fun _ => false;
     NetInfo_answer := fun _ => NetInfoState false;
     clock := fun _ => now;
     random_draw := fun _ => (2 ^ 52)%N |}.

Definition offline : World := offline_at epoch.

(** A server that answers every request with status 200 and the JSON text
    [null]. *)
Definition bare_server : World :=
  {| fetch_answer := fun _ _ => Answer {| status := 200; body := Some "null" |};
     getItem_rejects := fun _ => false;
     setItem_rejects := fun _ => false;
     NetInfo_answer := fun _ => NetInfoState true;
     clock := fun n => epoch + Z.of_nat n;
     random_draw := fun _ => (2 ^ 52)%N |}.

(** The text of a success answer whose data is a number too large for a
    double: success true, data 1e400. *)
Definition overflowing_text : string :=
  "{" +:+ Reference.quote "success" +:+ ":true,"
      +:+ Reference.quote "data" +:+ ":1e400}".

(** A backend that answers every request with that text. *)
Definition overflowing : World :=
  {| fetch_answer := fun _ _ => Answer {| status := 200; body := Some overflowing_text |};
     getItem_rejects := fun _ => false;
     setItem_rejects := fun _ => false;
     NetInfo_answer := fun _ => NetInfoState true;
     clock := fun n => epoch + Z.of_nat n;
     random_draw := fun _ => (2 ^ 52)%N |}.

Definition fresh_start : State :=
  {| storage := ∅; discoveredBackendUrl := None; requests := []; tick := 0 |}.

Definition with_entry (key text : string) : State :=
  {| storage := {[ key := text ]}; discoveredBackendUrl := None;
     requests := []; tick := 0 |}.

(** The backend was discovered earlier in the session. *)
Definition discovered : State :=
  {| storage := ∅; discoveredBackendUrl := Some "http://localhost:3000/api";
     requests := []; tick := 0 |}.

(** The backend was discovered earlier, and the storage holds one entry. *)
Definition discovered_with_entry (key text : string) : State :=
  {| storage := {[ key := text ]};
     discoveredBackendUrl := Some "http://localhost:3000/api";
     requests := []; tick := 0 |}.

(** Remote generation switched on and a time to live of two hours. *)
Definition short_lived : Config :=
  {| EXPO_PUBLIC_API_URL := None;
     EXPO_PUBLIC_USE_BACKEND_GENERATION := JStr "true";
     EXPO_PUBLIC_CACHE_EXPIRY_HOURS := Some 2;
     Platform_OS := "android";
     expoConfig_hostUri := Some "192.168.1.5:8081";
     Constants_manifest := None;
     EXPO_PUBLIC_ENABLE_API_CACHE := JUndefined |}.

Definition minutes (n : Z) : Z := n * 60 * 1000.

Definition quest_payload : jsval :=
  JObj [("taskTitle", JStr "Wash dishes"); ("category", JStr "home");
        ("difficulty", JStr "normal")].

Definition cached_quest : jsval :=
  JObj [("questTitle", JStr "The Village Duty"); ("questNarrative", JStr "Restore order.")].

(** What an earlier answer of the backend may have been. *)
Definition older_quest : jsval :=
  JObj [("questTitle", JStr "The Village Errand"); ("questNarrative", JStr "Tidy up.")].

End Scenario.

(** * Properties *)

Section Properties.
Context {P : Platform} {C : Config} {W : World}.

(** ** Strings *)

Lemma startsWith_append p r : startsWith (p +:+ r) p = true.
Proof.
  induction p as [|c p IH]; [done|]. simpl. by rewrite Ascii.eqb_refl, IH.
Qed.




(** ** The effect monad *)

Lemma bind_ret {A B} (c : M A) (k : A -> M B) s a s' :
  c s = (Ret a, s') -> bind c k s = k a s'.
Proof. intros H. unfold bind. by rewrite H. Qed.

Lemma bind_throw {A B} (c : M A) (k : A -> M B) s e s' :
  c s = (Throw e, s') -> bind c k s = (Throw e, s').
Proof. intros H. unfold bind. by rewrite H. Qed.

(** Catching an error only to throw it again changes nothing. *)
Lemma try_rethrow {A} (c : M A) s :
  try_catch c (fun e => throw e) s = c s.
Proof. unfold try_catch, throw. by destruct (c s) as [[a|e] s']. Qed.

(** ** The reachability probe *)

Lemma isUrlReachable_run url s :
  isUrlReachable url s
  = (Ret (probe_verdict (tick s) url), advance (with_request (health_request url) s)).
Proof.
  unfold isUrlReachable, try_catch, bind, fetch, probe_verdict.
  destruct (fetch_answer (tick s) (health_request url)) as [msg|r]; [done|].
  destruct (ok r); [|done]. simpl.
  unfold response_json.
  destruct (body r) as [text|]; [|done].
  by destruct (JSON_parse text) as [v|].
Qed.



(** ** The candidate generator *)

Lemma mem_string_true s l : mem_string s l = true <-> s ∈ l.
Proof.
  unfold mem_string. rewrite existsb_exists. split.
  - intros (x & Hin & ->%String.eqb_eq). by apply list_elem_of_In.
  - intros Hin. exists s. split; [by apply list_elem_of_In | apply String.eqb_refl].
Qed.

Lemma mem_string_false s l : mem_string s l = false <-> s ∉ l.
Proof.
  rewrite <- mem_string_true. destruct (mem_string s l); split; congruence.
Qed.

Lemma first_index_elem x l : x ∈ l -> exists a, first_index x l = Some a.
Proof.
  induction l as [|y l IH]; [by intros ?%elem_of_nil|].
  intros Hin. simpl. destruct (String.eqb x y) eqn:E; [by eexists|].
  apply String.eqb_neq in E. apply elem_of_cons in Hin as [?|Hin]; [done|].
  destruct (IH Hin) as [a ->]. by eexists.
Qed.

(** The set built from [urls] on top of [seen]: the texts already seen stay
    in front, the new ones follow, each once, in the order in which they
    first occur in [urls]. *)
Lemma Set_add_all_spec urls :
  forall seen, NoDup seen ->
  exists news,
    Set_add_all seen urls = seen ++ news /\
    NoDup (seen ++ news) /\
    (forall x, x ∈ news <-> x ∈ urls /\ x ∉ seen) /\
    (forall i j x y,
        news !! i = Some x -> news !! j = Some y -> (i < j)%nat ->
        exists a b, first_index x urls = Some a /\ first_index y urls = Some b
                    /\ (a < b)%nat).
Proof.
  induction urls as [|u rest IH]; intros seen Hseen.
  - exists []. rewrite app_nil_r. split; [done|]. split; [done|]. split.
    + intros x. split; [by intros ?%elem_of_nil | by intros [?%elem_of_nil _]].
    + intros i j x y Hi. done.
  - simpl. destruct (mem_string u seen) eqn:Hmem.
    + apply mem_string_true in Hmem.
      destruct (IH seen Hseen) as (news & Heq & Hnd & Hel & Hord).
      exists news. split; [done|]. split; [done|]. split.
      * intros x. rewrite Hel, elem_of_cons. split; [tauto|].
        intros [[->|Hx] Hn]; done.
      * intros i j x y Hi Hj Hlt.
        destruct (Hord i j x y Hi Hj Hlt) as (a & b & Ha & Hb & Hab).
        assert (x <> u) as Hxu.
        { intros ->. apply list_elem_of_lookup_2 in Hi. apply Hel in Hi as [_ ?]. done. }
        assert (y <> u) as Hyu.
        { intros ->. apply list_elem_of_lookup_2 in Hj. apply Hel in Hj as [_ ?]. done. }
        exists (S a), (S b).
        apply String.eqb_neq in Hxu as ->. apply String.eqb_neq in Hyu as ->.
        rewrite Ha, Hb. split; [done|]. split; [done|lia].
    + apply mem_string_false in Hmem.
      assert (NoDup (seen ++ [u])) as Hnd'.
      { apply NoDup_app. split; [done|]. split; [|apply NoDup_singleton].
        intros x Hx ->%list_elem_of_singleton. done. }
      destruct (IH (seen ++ [u]) Hnd') as (news & Heq & Hnd & Hel & Hord).
      exists (u :: news). rewrite Heq, <- app_assoc. simpl.
      rewrite <- app_assoc in Hnd. simpl in Hnd.
      split; [done|]. split; [done|]. split.
      * intros x. rewrite !elem_of_cons, Hel, elem_of_app, list_elem_of_singleton.
        destruct (decide (x = u)) as [->|Hne]; [tauto|]. tauto.
      * intros i j x y Hi Hj Hlt.
        assert (forall k z, news !! k = Some z -> z <> u /\ z ∈ rest) as Hnews.
        { intros k z Hk. apply list_elem_of_lookup_2 in Hk. apply Hel in Hk as [Hz Hn].
          split; [|done]. intros ->. apply Hn. apply elem_of_app. right.
          by apply list_elem_of_singleton. }
        destruct j as [|j]; [lia|]. simpl in Hj.
        destruct (Hnews _ _ Hj) as [Hyu Hyin].
        destruct i as [|i]; simpl in Hi.
        -- injection Hi as <-.
           destruct (first_index_elem _ _ Hyin) as [b Hb].
           exists O, (S b). rewrite String.eqb_refl.
           apply String.eqb_neq in Hyu as ->. rewrite Hb. split; [done|]. split; [done|lia].
        -- destruct (Hnews _ _ Hi) as [Hxu Hxin].
           destruct (Hord i j x y Hi Hj) as (a & b & Ha & Hb & Hab); [lia|].
           exists (S a), (S b).
           apply String.eqb_neq in Hxu as ->. apply String.eqb_neq in Hyu as ->.
           rewrite Ha, Hb. split; [done|]. split; [done|lia].
Qed.

Lemma truthy_str_Some u : u <> EmptyString -> truthy_str (Some u) = true.
Proof. intros Hne. simpl. by apply String.eqb_neq in Hne as ->. Qed.

Lemma pushed_urls_head u :
  EXPO_PUBLIC_API_URL = Some u -> u <> EmptyString ->
  exists rest, pushed_urls = u :: rest.
Proof.
  intros Hcfg Hne. unfold pushed_urls. rewrite Hcfg, truthy_str_Some by done.
  simpl. repeat case_match; by eexists.
Qed.

(** C7. For every configuration and platform the candidate list has no
    duplicates, holds exactly the URLs that were pushed, in the order in
    which each was first pushed, and starts with the override URL whenever
    one is configured. *)
Theorem C7_candidate_list :
  NoDup getPossibleServerUrls /\
  (forall x, x ∈ getPossibleServerUrls <-> x ∈ pushed_urls) /\
  (forall i j x y,
      getPossibleServerUrls !! i = Some x ->
      getPossibleServerUrls !! j = Some y -> (i < j)%nat ->
      exists a b, first_index x pushed_urls = Some a /\
                  first_index y pushed_urls = Some b /\ (a < b)%nat) /\
  (forall u, EXPO_PUBLIC_API_URL = Some u -> u <> EmptyString ->
             head getPossibleServerUrls = Some u).
Proof.
  unfold getPossibleServerUrls, Set_spread.
  destruct (Set_add_all_spec pushed_urls [] (NoDup_nil_2))
    as (news & Heq & Hnd & Hel & Hord).
  simpl in Heq, Hnd. rewrite Heq. repeat split; try done.
  - intros Hx. by apply Hel in Hx as [? _].
  - intros Hx. apply Hel. split; [done | apply not_elem_of_nil].
  - intros u Hcfg Hne. destruct (pushed_urls_head u Hcfg Hne) as [rest Hrest].
    rewrite <- Heq, Hrest. simpl.
    destruct (Set_add_all_spec rest [u]) as (news' & -> & _); [apply NoDup_singleton|done].
Qed.

(** ** The backend locator *)

(** The check of the cached URL, step by step. *)
Lemma check_cached_url_run s :
  check_cached_url s =
  if getItem_rejects (tick s) then (Ret None, advance s)
  else
    match storage s !! "working_backend_url" with
    | Some u =>
        if String.eqb u EmptyString then (Ret None, advance s)
        else (Ret (if probe_verdict (S (tick s)) u then Some u else None),
              advance (with_request (health_request u) (advance s)))
    | None => (Ret None, advance s)
    end.
Proof.
  unfold check_cached_url, try_catch, bind, AsyncStorage_getItem.
  destruct (getItem_rejects (tick s)); [done|].
  destruct (storage s !! "working_backend_url") as [u|]; [|done]. simpl.
  destruct (String.eqb u EmptyString); [done|]. simpl.
  rewrite isUrlReachable_run. simpl.
  by destruct (probe_verdict (S (tick s)) u).
Qed.

(** The check never throws, leaves the storage alone, and issues at most the
    one health request to the cached URL. *)
Lemma check_cached_url_effect s :
  exists found s',
    check_cached_url s = (Ret found, s') /\
    storage s' = storage s /\
    discoveredBackendUrl s' = discoveredBackendUrl s /\
    (tick s < tick s')%nat /\
    (requests s' = requests s \/
     exists cachedUrl,
       storage s !! "working_backend_url" = Some cachedUrl /\
       requests s' = requests s ++ [health_request cachedUrl]).
Proof.
  rewrite check_cached_url_run.
  destruct (getItem_rejects (tick s)).
  { eexists _, _. split; [done|]. simpl. repeat split; [lia | by left]. }
  destruct (storage s !! "working_backend_url") as [u|] eqn:Hu.
  - destruct (String.eqb u EmptyString).
    + eexists _, _. split; [done|]. simpl. repeat split; [lia | by left].
    + eexists _, _. split; [done|]. simpl. repeat split; [lia | right; by exists u].
  - eexists _, _. split; [done|]. simpl. repeat split; [lia | by left].
Qed.

(** C8. When the check of the cached URL yields no reachable URL and the
    device reports no network, the locator returns [null] at once: the state
    it leaves is the one after the cached-URL check, one interaction later
    (the connectivity query), so no candidate is generated or probed; the
    only request the invocation may have issued is the health check of the
    cached URL. *)
Theorem C8_no_network_short_circuit s :
  (check_cached_url s).1 = Ret None ->
  NetInfo_answer (tick (check_cached_url s).2) = NetInfoState false ->
  discoverBackendUrl s = (Ret None, advance (check_cached_url s).2) /\
  storage (discoverBackendUrl s).2 = storage s /\
  (requests (discoverBackendUrl s).2 = requests s \/
   exists cachedUrl,
     storage s !! "working_backend_url" = Some cachedUrl /\
     requests (discoverBackendUrl s).2 = requests s ++ [health_request cachedUrl]).
Proof.
  intros Hcached Hnet.
  destruct (check_cached_url_effect s) as (found & s1 & Hrun & Hst & _ & _ & Hreq).
  rewrite Hrun in Hcached, Hnet |- *. simpl in Hcached, Hnet |- *.
  injection Hcached as ->.
  assert (discoverBackendUrl s = (Ret None, advance s1)) as Heq.
  { unfold discoverBackendUrl. rewrite (bind_ret _ _ _ _ _ Hrun).
    unfold bind, NetInfo_fetch. by rewrite Hnet. }
  rewrite Heq. simpl. done.
Qed.

Lemma untouched_refl key s : untouched key s s.
Proof. split; [done..|]. exists []. by rewrite app_nil_r. Qed.

Lemma untouched_trans key s1 s2 s3 :
  untouched key s1 s2 -> untouched key s2 s3 -> untouched key s1 s3.
Proof.
  intros [He1 [m1 Hr1]] [He2 [m2 Hr2]]. split.
  - by rewrite He2.
  - exists (m1 ++ m2). by rewrite Hr2, Hr1, app_assoc.
Qed.

Lemma untouched_advance key s : untouched key s (advance s).
Proof. split; [done..|]. exists []. by rewrite app_nil_r. Qed.

Lemma untouched_probe key url s :
  untouched key s (advance (with_request (health_request url) s)).
Proof. split; [done..|]. by eexists. Qed.

Lemma untouched_setItem key k v s :
  key <> k -> untouched key s (advance (with_storage (<[k := v]> (storage s)) s)).
Proof.
  intros Hne. split; simpl; [by rewrite lookup_insert_ne |].
  exists []. by rewrite app_nil_r.
Qed.

Lemma probe_candidates_effect key urls :
  key <> "working_backend_url" ->
  forall s, exists found s',
    probe_candidates urls s = (Ret found, s') /\ untouched key s s'.
Proof.
  intros Hkey. induction urls as [|url rest IH]; intros s; simpl.
  - eexists _, _. split; [done | apply untouched_refl].
  - unfold bind at 1. rewrite isUrlReachable_run.
    destruct (probe_verdict (tick s) url).
    + unfold bind, try_catch, AsyncStorage_setItem, ret. simpl.
      destruct (setItem_rejects (S (tick s))); eexists _, _; (split; [done|]).
      * eapply untouched_trans; [apply untouched_probe | apply untouched_advance].
      * eapply untouched_trans; [apply untouched_probe|].
        apply (untouched_setItem key "working_backend_url" url
                 (advance (with_request (health_request url) s))). done.
    + destruct (IH (advance (with_request (health_request url) s)))
        as (found & s' & Hrun & Hun).
      exists found, s'. split; [done|].
      eapply untouched_trans; [apply untouched_probe | done].
Qed.

(** Discovery throws only when the connectivity query is rejected. *)
Lemma discoverBackendUrl_effect key s :
  key <> "working_backend_url" ->
  exists o s', discoverBackendUrl s = (o, s') /\ untouched key s s'.
Proof.
  intros Hkey. unfold discoverBackendUrl.
  destruct (check_cached_url_effect s) as (found & s1 & Hrun & Hst & Hd & _ & Hreq).
  assert (untouched key s s1) as Hun1.
  { split; [by rewrite Hst |].
    destruct Hreq as [->|(u & _ & ->)]; [exists []; by rewrite app_nil_r | by eexists]. }
  rewrite (bind_ret _ _ _ _ _ Hrun).
  destruct found as [url|]; [by eexists _, _|].
  unfold bind at 1, NetInfo_fetch.
  destruct (NetInfo_answer (tick s1)) as [msg|connected].
  - eexists _, _. split; [done|].
    eapply untouched_trans; [done | apply untouched_advance].
  - destruct connected; simpl.
    + destruct (probe_candidates_effect key getPossibleServerUrls Hkey (advance s1))
        as (found & s' & Hp & Hun).
      eexists _, _. split; [done|].
      eapply untouched_trans; [done|].
      eapply untouched_trans; [apply untouched_advance | done].
    + eexists _, _. split; [done|].
      eapply untouched_trans; [done | apply untouched_advance].
Qed.

Lemma getApiUrl_effect key endpoint baseUrl s :
  key <> "working_backend_url" ->
  exists o s', getApiUrl endpoint baseUrl s = (o, s') /\ untouched key s s'.
Proof.
  intros Hkey. unfold getApiUrl.
  assert (exists o s1,
            (if truthy_str baseUrl then ret baseUrl else discoverBackendUrl) s = (o, s1)
            /\ untouched key s s1) as (o & s1 & Hrun & Hun).
  { destruct (truthy_str baseUrl).
    - eexists _, _. split; [done | apply untouched_refl].
    - by apply discoverBackendUrl_effect. }
  destruct o as [backendUrl|e].
  - rewrite (bind_ret _ _ _ _ _ Hrun).
    repeat case_match; eexists _, _; (split; [done|]); done.
  - rewrite (bind_throw _ _ _ _ _ Hrun). by eexists _, _.
Qed.

(** ** The backend locator, in detail *)

Lemma append_assoc (a b c : string) : (a +:+ b) +:+ c = a +:+ (b +:+ c).
Proof.
  induction a as [|x a IH]; [done|].
  change (String x ((a +:+ b) +:+ c) = String x (a +:+ (b +:+ c))). by rewrite IH.
Qed.

Lemma startsWith_spec s p : startsWith s p = true <-> exists r, s = p +:+ r.
Proof.
  split.
  - revert s. induction p as [|c p IH]; intros s H; [by exists s|].
    destruct s as [|d s]; [done|]. simpl in H.
    apply andb_true_iff in H as [Hc Hp]. apply Ascii.eqb_eq in Hc as ->.
    destruct (IH _ Hp) as [r ->]. by exists r.
  - intros [r ->]. apply startsWith_append.
Qed.

Lemma endsWith_append a p : endsWith (a +:+ p) p = true.
Proof.
  induction a as [|c a IH].
  - change (endsWith p p = true).
    pose proof (String.eqb_refl p) as H. destruct p; simpl in *; [done | by rewrite H].
  - change (endsWith (String c (a +:+ p)) p = true). simpl. rewrite IH.
    apply orb_true_r.
Qed.

Lemma endsWith_spec s p : endsWith s p = true <-> exists a, s = a +:+ p.
Proof.
  split.
  - induction s as [|c s IH]; cbn [endsWith].
    + rewrite orb_false_r. intros <-%String.eqb_eq. by exists EmptyString.
    + intros [<-%String.eqb_eq|H]%orb_true_iff; [by exists EmptyString|].
      destruct (IH H) as [a ->]. by exists (String c a).
  - intros [a ->]. apply endsWith_append.
Qed.

(** ** [getApiUrl] *)

Lemma getApiUrl_known endpoint base s :
  base <> EmptyString ->
  getApiUrl endpoint (Some base) s = (Ret (Some (api_url base endpoint)), s).
Proof.
  intros Hbase. unfold getApiUrl. rewrite truthy_str_Some by done.
  unfold bind, ret. rewrite truthy_str_Some by done. simpl. unfold api_url.
  by repeat case_match.
Qed.

(** X1. With a base URL in hand, [getApiUrl] does no discovery and leaves the
    state alone; the URL it builds starts with the base and ends with
    "/api/" followed by the endpoint, whether the base already ends in
    "/api", in "/", or in neither; one leading slash of the endpoint makes no
    difference. *)
Theorem getApiUrl_shape endpoint base s :
  base <> EmptyString ->
  startsWith endpoint "/" = false ->
  (exists url,
      getApiUrl endpoint (Some base) s = (Ret (Some url), s) /\
      startsWith url base = true /\
      endsWith url ("/api/" +:+ endpoint) = true) /\
  getApiUrl ("/" +:+ endpoint) (Some base) s = getApiUrl endpoint (Some base) s.
Proof.
  intros Hbase Hslash. split.
  - eexists. split; [by apply getApiUrl_known|]. unfold api_url. rewrite Hslash.
    destruct (endsWith base "/api") eqn:Hapi; [|destruct (endsWith base "/") eqn:Hs].
    + split; [apply startsWith_append|].
      apply endsWith_spec in Hapi as [a ->]. apply endsWith_spec. exists a.
      by rewrite !append_assoc.
    + split; [apply startsWith_append|].
      apply endsWith_spec in Hs as [a ->]. apply endsWith_spec. exists a.
      by rewrite !append_assoc.
    + split; [apply startsWith_append|]. apply endsWith_append.
  - rewrite !getApiUrl_known by done. unfold api_url. rewrite Hslash. done.
Qed.

(** X2. The health check goes to a URL that ends in "/api/health"; unless
    the base ends in a slash, it is the URL [getApiUrl] builds for the
    endpoint "health". *)
Theorem health_url_shape base s :
  endsWith (health_url base) "/api/health" = true /\
  (base <> EmptyString -> endsWith base "/" = false ->
   getApiUrl "health" (Some base) s = (Ret (Some (health_url base)), s)).
Proof.
  split.
  - unfold health_url. destruct (endsWith base "/api") eqn:Hapi.
    + apply endsWith_spec in Hapi as [a ->]. apply endsWith_spec. exists a.
      by rewrite !append_assoc.
    + apply endsWith_append.
  - intros Hbase Hs. rewrite getApiUrl_known by done. unfold api_url.
    unfold health_url. simpl. rewrite Hs. by destruct (endsWith base "/api").
Qed.

(** ** [discoverBackendUrl] *)

(** The loop over the candidates, probing the [i]-th one at interaction
    [tick s + i]: it stops at the first candidate with a positive verdict. *)
Lemma probe_candidates_first urls :
  forall s found s',
    probe_candidates urls s = (Ret found, s') ->
    match found with
    | Some u =>
        exists i,
          urls !! i = Some u /\
          probe_verdict (tick s + i) u = true /\
          (forall j v, (j < i)%nat -> urls !! j = Some v ->
                       probe_verdict (tick s + j) v = false) /\
          requests s' = requests s ++ map health_request (take (S i) urls) /\
          storage s' = (if setItem_rejects (tick s + S i) then storage s
                        else <["working_backend_url" := u]> (storage s)) /\
          tick s' = (tick s + S (S i))%nat
    | None =>
        (forall j v, urls !! j = Some v -> probe_verdict (tick s + j) v = false) /\
        requests s' = requests s ++ map health_request urls /\
        storage s' = storage s /\
        tick s' = (tick s + length urls)%nat
    end.
Proof.
  induction urls as [|url rest IH]; intros s found s'; simpl.
  - intros [= <- <-]. rewrite app_nil_r, Nat.add_0_r. done.
  - unfold bind at 1. rewrite isUrlReachable_run.
    destruct (probe_verdict (tick s) url) eqn:Hverdict.
    + unfold bind, try_catch, AsyncStorage_setItem, ret. simpl. intros Hrun.
      destruct (setItem_rejects (S (tick s))) eqn:Hset; injection Hrun as <- <-;
        exists O; simpl; replace (tick s + 1)%nat with (S (tick s)) by lia;
        rewrite Nat.add_0_r, Hset;
        (split; [done|]); (split; [done|]); (split; [intros j v Hj; lia|]);
        (split; [done|]); (split; [done | lia]).
    + intros Hrun. apply IH in Hrun. simpl in Hrun.
      destruct found as [u|].
      * destruct Hrun as (i & Hi & Hv & Hbefore & Hreq & Hst & Htick).
        exists (S i). simpl.
        replace (tick s + S i)%nat with (S (tick s + i)) by lia.
        replace (tick s + S (S i))%nat with (S (tick s + S i)) by lia.
        replace (S (tick s) + i)%nat with (S (tick s + i)) in * by lia.
        replace (S (tick s) + S i)%nat with (S (tick s + S i)) in * by lia.
        split; [done|]. split; [done|]. split.
        { intros [|j] v Hj Hl; simpl in Hl.
          - injection Hl as <-. by rewrite Nat.add_0_r.
          - replace (tick s + S j)%nat with (S (tick s) + j)%nat by lia.
            apply Hbefore; [lia | done]. }
        split; [by rewrite Hreq, <- app_assoc|]. split; [done | lia].
      * destruct Hrun as (Hall & Hreq & Hst & Htick).
        split.
        { intros [|j] v Hl; simpl in Hl.
          - injection Hl as <-. by rewrite Nat.add_0_r.
          - replace (tick s + S j)%nat with (S (tick s) + j)%nat by lia.
            by apply Hall. }
        split; [by rewrite Hreq, <- app_assoc|]. split; [done | lia].
Qed.

Lemma discoverBackendUrl_candidates s :
  (check_cached_url s).1 = Ret None ->
  NetInfo_answer (tick (check_cached_url s).2) = NetInfoState true ->
  discoverBackendUrl s
  = probe_candidates getPossibleServerUrls (advance (check_cached_url s).2).
Proof.
  intros Hcached Hnet. unfold discoverBackendUrl.
  destruct (check_cached_url s) as [o s1] eqn:Hrun. simpl in *. subst o.
  rewrite (bind_ret _ _ _ _ _ Hrun). unfold bind, NetInfo_fetch. by rewrite Hnet.
Qed.

Lemma probe_candidates_returns urls s :
  exists found s', probe_candidates urls s = (Ret found, s').
Proof.
  destruct (probe_candidates_effect "k" urls ltac:(discriminate) s)
    as (found & s' & Hrun & _).
  by exists found, s'.
Qed.

(** X3. With no usable cached URL and the device connected, the locator
    probes the candidates in list order, one request each, and stops at the
    first that answers: the URL it returns is that candidate, every earlier
    candidate was probed and found unreachable, and no later one is probed;
    when it returns [null] every candidate was probed, once, and found
    unreachable. *)
Theorem discover_probes_in_order s :
  (check_cached_url s).1 = Ret None ->
  NetInfo_answer (tick (check_cached_url s).2) = NetInfoState true ->
  let s1 := advance (check_cached_url s).2 in
  let urls := getPossibleServerUrls in
  exists found s',
    discoverBackendUrl s = (Ret found, s') /\
    match found with
    | Some u =>
        exists i,
          urls !! i = Some u /\
          probe_verdict (tick s1 + i) u = true /\
          (forall j v, (j < i)%nat -> urls !! j = Some v ->
                       probe_verdict (tick s1 + j) v = false) /\
          requests s' = requests s1 ++ map health_request (take (S i) urls)
    | None =>
        (forall j v, urls !! j = Some v -> probe_verdict (tick s1 + j) v = false) /\
        requests s' = requests s1 ++ map health_request urls
    end.
Proof.
  intros Hcached Hnet s1 urls.
  rewrite discoverBackendUrl_candidates by done. fold s1. fold urls.
  destruct (probe_candidates_returns urls s1) as (found & s' & Hrun).
  exists found, s'. split; [done|].
  pose proof (probe_candidates_first urls s1 found s' Hrun) as Hfirst.
  destruct found as [u|].
  - destruct Hfirst as (i & ? & ? & ? & ? & _). by exists i.
  - by destruct Hfirst as (? & ? & _).
Qed.

Lemma pushed_urls_nonempty : EmptyString ∉ pushed_urls.
Proof.
  assert (forall o l, o <> EmptyString -> EmptyString ∉ l ->
                      EmptyString ∉ (o :: l)) as Hcons.
  { intros o l Ho Hl [?|?]%elem_of_cons; [by apply Ho | by apply Hl]. }
  assert (forall l1 l2 : list string,
             EmptyString ∉ l1 -> EmptyString ∉ l2 -> EmptyString ∉ l1 ++ l2) as Happ.
  { intros l1 l2 H1 H2 [?|?]%elem_of_app; [by apply H1 | by apply H2]. }
  unfold pushed_urls.
  assert (EmptyString ∉
            (if truthy_str EXPO_PUBLIC_API_URL
             then [default EmptyString EXPO_PUBLIC_API_URL] else [])) as Hfirst.
  { destruct EXPO_PUBLIC_API_URL as [o|]; simpl; [|apply not_elem_of_nil].
    destruct (String.eqb o EmptyString) eqn:Ho; simpl; [apply not_elem_of_nil|].
    apply String.eqb_neq in Ho. apply Hcons; [done | apply not_elem_of_nil]. }
  cbv zeta.
  repeat case_match;
    repeat first [ apply Happ | apply Hcons; [discriminate|] | apply not_elem_of_nil
                 | exact Hfirst ].
Qed.

Lemma candidates_nonempty u : u ∈ getPossibleServerUrls -> u <> EmptyString.
Proof.
  unfold getPossibleServerUrls, Set_spread.
  destruct (Set_add_all_spec pushed_urls [] NoDup_nil_2) as (news & -> & _ & Hel & _).
  simpl. intros [Hin _]%Hel ->. by apply pushed_urls_nonempty.
Qed.

Lemma discoverBackendUrl_run_cases s :
  let c := check_cached_url s in
  (exists u, c.1 = Ret (Some u) /\ discoverBackendUrl s = (Ret (Some u), c.2)) \/
  (c.1 = Ret None /\
   ((exists msg, NetInfo_answer (tick c.2) = NetInfoRejects msg /\
                 discoverBackendUrl s = (Throw msg, advance c.2)) \/
    (NetInfo_answer (tick c.2) = NetInfoState false /\
     discoverBackendUrl s = (Ret None, advance c.2)) \/
    (NetInfo_answer (tick c.2) = NetInfoState true /\
     discoverBackendUrl s = probe_candidates getPossibleServerUrls (advance c.2)))).
Proof.
  intros c. unfold c.
  destruct (check_cached_url_effect s) as (found & s1 & Hrun & _).
  unfold discoverBackendUrl. rewrite (bind_ret _ _ _ _ _ Hrun), Hrun. simpl.
  destruct found as [u|]; [left; by exists u|]. right. split; [done|].
  unfold bind, NetInfo_fetch.
  destruct (NetInfo_answer (tick s1)) as [msg|[]]; simpl.
  - left. by exists msg.
  - right. by right.
  - right. by left.
Qed.

(** X4. Whatever happens, discovery leaves the storage as it was or with the
    one entry working_backend_url set to the URL it returns, which is then
    one of the candidates; a URL answered from the stored entry is not
    written again. *)
Theorem discover_storage_effect s :
  let run := discoverBackendUrl s in
  storage run.2 = storage s \/
  exists u,
    run.1 = Ret (Some u) /\ u ∈ getPossibleServerUrls /\
    (check_cached_url s).1 = Ret None /\
    storage run.2 = <["working_backend_url" := u]> (storage s).
Proof.
  intros run. unfold run.
  destruct (check_cached_url_effect s) as (found & s1 & Hrun & Hst & _).
  destruct (discoverBackendUrl_run_cases s) as
    [(u & Hc & ->)|(Hc & [(msg & _ & ->)|[(_ & ->)|(_ & ->)]])];
    rewrite Hrun in *; simpl in *; try by left.
  destruct (probe_candidates_returns getPossibleServerUrls (advance s1))
    as (found' & s' & Hp).
  rewrite Hp. simpl.
  pose proof (probe_candidates_first _ _ _ _ Hp) as Hfirst.
  destruct found' as [u|].
  - destruct Hfirst as (i & Hi & _ & _ & _ & Hst' & _). simpl in Hst'.
    destruct (setItem_rejects _).
    + left. by rewrite Hst'.
    + right. exists u. split; [done|]. split; [by eapply list_elem_of_lookup_2|].
      split; [done|]. by rewrite Hst', Hst.
  - destruct Hfirst as (_ & _ & Hst' & _). left. by rewrite Hst'.
Qed.

Lemma discover_result_nonempty s u s' :
  discoverBackendUrl s = (Ret (Some u), s') -> u <> EmptyString.
Proof.
  intros Hrun.
  destruct (discoverBackendUrl_run_cases s) as
    [(v & Hc & Heq)|(Hc & [(msg & _ & Heq)|[(_ & Heq)|(_ & Heq)]])];
    rewrite Heq in Hrun; try discriminate.
  - injection Hrun as -> _. rewrite check_cached_url_run in Hc.
    repeat case_match; simplify_eq/=. by apply String.eqb_neq.
  - pose proof (probe_candidates_first _ _ _ _ Hrun) as (i & Hi & _).
    apply candidates_nonempty. by eapply list_elem_of_lookup_2.
Qed.

(** X5. A URL that discovery returns is in the storage afterwards (unless
    the storage rejected the write), and a later discovery that reads it
    there and finds it still answering returns it after that single probe:
    no connectivity query, no candidates, no second write. *)
Theorem discover_then_reuse s u s' :
  discoverBackendUrl s = (Ret (Some u), s') ->
  (storage s' !! "working_backend_url" = Some u \/
   (storage s' = storage s /\ (check_cached_url s).1 = Ret None)) /\
  forall s2,
    storage s2 !! "working_backend_url" = Some u ->
    getItem_rejects (tick s2) = false ->
    probe_verdict (S (tick s2)) u = true ->
    discoverBackendUrl s2
    = (Ret (Some u), advance (with_request (health_request u) (advance s2))).
Proof.
  intros Hrun. pose proof (discover_result_nonempty _ _ _ Hrun) as Hne. split.
  - destruct (discoverBackendUrl_run_cases s) as
      [(v & Hc & Heq)|(Hc & [(msg & _ & Heq)|[(_ & Heq)|(_ & Heq)]])];
      rewrite Heq in Hrun; try discriminate.
    + injection Hrun as -> <-. left. rewrite check_cached_url_run in Hc |- *.
      repeat case_match; simplify_eq/=; done.
    + pose proof (probe_candidates_first _ _ _ _ Hrun) as (i & _ & _ & _ & _ & Hst & _).
      simpl in Hst. destruct (check_cached_url_effect s) as (f & s1 & Hc1 & Hs1 & _).
      rewrite Hc1 in Hst. simpl in Hst.
      destruct (setItem_rejects _).
      * right. split; [by rewrite Hst | done].
      * left. rewrite Hst. apply lookup_insert_eq.
  - intros s2 Hstored Hget Hverdict.
    unfold discoverBackendUrl. unfold bind at 1. rewrite check_cached_url_run.
    rewrite Hget, Hstored. apply String.eqb_neq in Hne as ->. by rewrite Hverdict.
Qed.

(** X6. Discovery absorbs storage failures and failed probes, but not a
    rejected connectivity query: it throws exactly when the check of the
    cached URL yields nothing and [NetInfo.fetch] rejects, with that error. *)
Theorem discover_throws_iff s e :
  (discoverBackendUrl s).1 = Throw e <->
  (check_cached_url s).1 = Ret None /\
  NetInfo_answer (tick (check_cached_url s).2) = NetInfoRejects e.
Proof.
  destruct (discoverBackendUrl_run_cases s) as
    [(v & Hc & Heq)|(Hc & [(msg & Hnet & Heq)|[(Hnet & Heq)|(Hnet & Heq)]])];
    rewrite Heq; simpl.
  - rewrite Hc. split; [done | by intros [? _]].
  - rewrite Hnet. split; [by intros [= ->] | by intros [_ [= ->]]].
  - rewrite Hnet. split; [done | by intros [_ ?]].
  - rewrite Hnet.
    destruct (probe_candidates_returns getPossibleServerUrls
                (advance (check_cached_url s).2)) as (found & s' & ->).
    split; [done | by intros [_ ?]].
Qed.

(** ** [getPossibleServerUrls], what is in the list *)

Lemma candidate_of_pushed u : u ∈ pushed_urls -> u ∈ getPossibleServerUrls.
Proof.
  unfold getPossibleServerUrls, Set_spread.
  destruct (Set_add_all_spec pushed_urls [] NoDup_nil_2) as (news & -> & _ & Hel & _).
  simpl. intros Hin. apply Hel. split; [done | apply not_elem_of_nil].
Qed.

(** X7. Both loopback URLs are always candidates; on Android so is the
    emulator's host alias; with no override configured the list starts with
    localhost; when no Expo host is known the two private-network guesses
    are candidates, and when one is known and is not loopback, the URL built
    from its host name (port stripped, port 3000) is. *)
Theorem candidates_content :
  "http://localhost:3000/api" ∈ getPossibleServerUrls /\
  "http://127.0.0.1:3000/api" ∈ getPossibleServerUrls /\
  (Platform_OS = "android" -> "http://10.0.2.2:3000/api" ∈ getPossibleServerUrls) /\
  (truthy_str EXPO_PUBLIC_API_URL = false ->
   head getPossibleServerUrls = Some "http://localhost:3000/api") /\
  (truthy_str devServerHost = false ->
   "http://192.168.1.1:3000/api" ∈ getPossibleServerUrls /\
   "http://192.168.0.1:3000/api" ∈ getPossibleServerUrls) /\
  (forall h,
      devServerHost = Some h -> before_colon h <> EmptyString ->
      before_colon h <> "localhost" -> before_colon h <> "127.0.0.1" ->
      ("http://" +:+ before_colon h +:+ ":3000/api") ∈ getPossibleServerUrls).
Proof.
  assert (forall u, u ∈ ["http://localhost:3000/api"; "http://127.0.0.1:3000/api"] ->
                    u ∈ pushed_urls) as Hloop.
  { intros u Hu. unfold pushed_urls. cbv zeta.
    repeat case_match; rewrite ?elem_of_app; tauto. }
  split; [apply candidate_of_pushed, Hloop; set_solver|].
  split; [apply candidate_of_pushed, Hloop; set_solver|].
  split; [|split; [|split]].
  - intros Hos. apply candidate_of_pushed. unfold pushed_urls. cbv zeta.
    rewrite Hos. simpl. repeat case_match; rewrite ?elem_of_app; set_solver.
  - intros Hcfg. unfold getPossibleServerUrls, Set_spread.
    assert (exists rest, pushed_urls = "http://localhost:3000/api" :: rest) as [rest ->].
    { unfold pushed_urls. rewrite Hcfg. simpl. repeat case_match; by eexists. }
    simpl.
    destruct (Set_add_all_spec rest ["http://localhost:3000/api"])
      as (news & -> & _); [apply NoDup_singleton | done].
  - intros Hhost.
    split; apply candidate_of_pushed; unfold pushed_urls; cbv zeta; rewrite Hhost;
      rewrite elem_of_app; right; set_solver.
  - intros h Hh Hne Hlocal Hloopback. apply candidate_of_pushed.
    unfold pushed_urls. cbv zeta. rewrite Hh.
    assert (truthy_str (Some h) = true) as ->.
    { apply truthy_str_Some. intros ->. by apply Hne. }
    simpl.
    apply String.eqb_neq in Hne as ->. apply String.eqb_neq in Hlocal as ->.
    apply String.eqb_neq in Hloopback as ->. simpl.
    rewrite elem_of_app. right. set_solver.
Qed.
(** ** The remote call and its cache *)

Lemma ENABLE_API_CACHE_true : ENABLE_API_CACHE = true.
Proof. unfold ENABLE_API_CACHE. apply orb_true_r. Qed.

Lemma cacheable_true endpoint :
  endpoint <> "motivational-message" -> cacheable endpoint = true.
Proof.
  intros Hne. unfold cacheable. rewrite ENABLE_API_CACHE_true.
  by apply String.eqb_neq in Hne as ->.
Qed.

Lemma cacheKey_not_backend_url endpoint body :
  cacheKey_of endpoint body <> "working_backend_url".
Proof. unfold cacheKey_of. simpl. discriminate. Qed.

Lemma extractResponseData_defined result success :
  read_prop result "success" = Ret success ->
  exists data, extractResponseData result = Ret data.
Proof.
  intros H. unfold extractResponseData. rewrite H. repeat case_match; by eexists.
Qed.

Lemma ensure_backend_effect key s :
  key <> "working_backend_url" ->
  exists o s', ensure_backend s = (o, s') /\ untouched key s s'.
Proof.
  intros Hkey. unfold ensure_backend, bind at 1, get_discovered.
  destruct (negb (truthy_str (discoveredBackendUrl s))).
  - destruct (discoverBackendUrl_effect key s Hkey) as (o & s1 & Hrun & Hun).
    destruct o as [found|e].
    + rewrite (bind_ret _ _ _ _ _ Hrun). unfold bind, set_discovered.
      destruct (negb (truthy_str found)); eexists _, _; (split; [done|]);
        by destruct Hun.
    + rewrite (bind_throw _ _ _ _ _ Hrun). by eexists _, _.
  - eexists _, _. split; [done | apply untouched_refl].
Qed.

(** The cache write changes nothing but the entry under the cache key, and
    what it stores there is the normalized data with the current time. *)
Lemma cache_write_effect endpoint key result s :
  exists o s',
    cache_write endpoint key result s = (o, s') /\
    requests s' = requests s /\
    (storage s' = storage s \/
     exists data,
       extractResponseData result = Ret data /\
       storage s'
       = <[key := JSON_stringify (cache_entry data (clock (tick s)))]> (storage s)).
Proof.
  unfold cache_write. destruct (cacheable endpoint).
  2: { eexists _, _. split; [done|]. split; [done | by left]. }
  unfold bind at 1, lift.
  destruct (read_prop result "success") as [success|e] eqn:Hsuccess.
  2: { eexists _, _. split; [done|]. split; [done | by left]. }
  destruct (is_undefined success || is_true success).
  2: { eexists _, _. split; [done|]. split; [done | by left]. }
  destruct (extractResponseData_defined _ _ Hsuccess) as [data Hdata].
  unfold try_catch, bind, lift, Date_now, AsyncStorage_setItem. rewrite Hdata.
  destruct (setItem_rejects (tick s)); eexists _, _; (split; [done|]); simpl.
  - split; [done | by left].
  - split; [done | right; by exists data].
Qed.

(** When the cache write goes through. *)
Lemma cache_write_stores endpoint key result s data :
  cacheable endpoint = true ->
  extractResponseData result = Ret data ->
  is_undefined (get_prop result "success") || is_true (get_prop result "success") = true ->
  setItem_rejects (tick s) = false ->
  cache_write endpoint key result s
  = (Ret tt,
     advance (with_storage
                (<[key := JSON_stringify (cache_entry data (clock (tick s)))]> (storage s))
                s)).
Proof.
  intros Hcacheable Hdata Hsuccess Hset.
  assert (read_prop result "success" = Ret (get_prop result "success")) as Hrp.
  { unfold extractResponseData in Hdata. by destruct result. }
  unfold cache_write. rewrite Hcacheable.
  unfold bind at 1, lift. rewrite Hrp, Hsuccess.
  unfold try_catch, bind, lift, Date_now, AsyncStorage_setItem.
  by rewrite Hdata, Hset.
Qed.

(** What a run of [remote_call] does: requests are only added; the entry
    under the cache key is left alone or replaced by the value returned; and
    a value is returned only after a request, as the normalized body of a
    success answer. *)
Lemma remote_call_effect endpoint method payload key s o s' :
  key <> "working_backend_url" ->
  remote_call endpoint method payload key s = (o, s') ->
  (exists more, requests s' = requests s ++ more) /\
  (storage s' !! key = storage s !! key \/
   exists v t, o = Ret v /\
               storage s' !! key = Some (JSON_stringify (cache_entry v t))) /\
  (forall v, o = Ret v ->
     (length (requests s) < length (requests s'))%nat /\
     exists n req r text result,
       fetch_answer n req = Answer r /\ ok r = true /\ body r = Some text /\
       JSON_parse text = Some result /\ extractResponseData result = Ret v /\
       (cacheable endpoint = true ->
        is_undefined (get_prop result "success") || is_true (get_prop result "success")
        = true ->
        setItem_rejects (S n) = false ->
        storage s' !! key = Some (JSON_stringify (cache_entry v (clock (S n)))))).
Proof.
  intros Hkey. unfold remote_call.
  destruct (ensure_backend_effect key s Hkey) as (o1 & s1 & Hrun1 & [He1 [m1 Hr1]]).
  destruct o1 as [[]|e].
  2: { rewrite (bind_throw _ _ _ _ _ Hrun1). intros [= <- <-].
       split; [by eexists|]. split; [by left | done]. }
  rewrite (bind_ret _ _ _ _ _ Hrun1). unfold bind at 1, get_discovered.
  destruct (getApiUrl_effect key endpoint (discoveredBackendUrl s1) s1 Hkey)
    as (o2 & s2 & Hrun2 & [He2 [m2 Hr2]]).
  destruct o2 as [fullUrl|e].
  2: { rewrite (bind_throw _ _ _ _ _ Hrun2). intros [= <- <-].
       split; [exists (m1 ++ m2); by rewrite Hr2, Hr1, app_assoc|].
       split; [left; by rewrite He2 | done]. }
  rewrite (bind_ret _ _ _ _ _ Hrun2).
  destruct (negb (truthy_str fullUrl)).
  { intros [= <- <-].
    split; [exists (m1 ++ m2); by rewrite Hr2, Hr1, app_assoc|].
    split; [left; by rewrite He2 | done]. }
  set (req := {| req_url := default EmptyString fullUrl; req_method := method;
                 req_body := if truthy payload then Some (JSON_stringify payload) else None |}).
  set (s3 := advance (with_request req s2)).
  assert (requests s3 = requests s ++ (m1 ++ m2 ++ [req])) as Hr3.
  { simpl. by rewrite Hr2, Hr1, !app_assoc. }
  assert (storage s3 !! key = storage s !! key) as He3.
  { simpl. by rewrite He2. }
  unfold bind at 1, fetch. fold req. fold s3.
  destruct (fetch_answer (tick s2) req) as [msg|r] eqn:Hanswer.
  { intros [= <- <-]. split; [eexists; apply Hr3|]. split; [by left | done]. }
  destruct (ok r) eqn:Hok; simpl.
  2: { unfold bind, response_text, throw, ret.
       destruct (body r); intros [= <- <-];
         (split; [eexists; apply Hr3|]); (split; [by left | done]). }
  unfold bind at 1, response_json.
  destruct (body r) as [text|] eqn:Hbody.
  2: { intros [= <- <-]. split; [eexists; apply Hr3|]. split; [by left | done]. }
  destruct (JSON_parse text) as [result|] eqn:Hparse.
  2: { intros [= <- <-]. split; [eexists; apply Hr3|]. split; [by left | done]. }
  unfold ret at 1.
  destruct (cache_write_effect endpoint key result s3) as (o4 & s4 & Hrun4 & Hr4 & Hst4).
  destruct o4 as [[]|e].
  2: { rewrite (bind_throw _ _ _ _ _ Hrun4). intros [= <- <-].
       split; [rewrite Hr4; eexists; apply Hr3|]. split; [|done].
       destruct Hst4 as [->|(data & Hdata & ->)]; [by left|].
       (* a write followed by a throw does not happen *)
       exfalso. unfold cache_write in Hrun4.
       destruct (cacheable endpoint); [|done].
       unfold bind, lift in Hrun4.
       destruct (read_prop result "success") as [a|e'] eqn:Hrp.
       - destruct (is_undefined a || is_true a); [|done].
         unfold try_catch, bind, lift, Date_now, AsyncStorage_setItem in Hrun4.
         rewrite Hdata in Hrun4. by destruct (setItem_rejects (tick s3)).
       - unfold extractResponseData in Hdata. by rewrite Hrp in Hdata. }
  rewrite (bind_ret _ _ _ _ _ Hrun4). unfold lift. intros [= <- <-].
  split; [rewrite Hr4; eexists; apply Hr3|]. split.
  - destruct Hst4 as [->|(data & Hdata & ->)]; [by left|].
    right. exists data, (clock (tick s3)). split; [done|].
    by rewrite lookup_insert_eq.
  - intros v Hv. split.
    + rewrite Hr4, Hr3, !length_app. simpl. lia.
    + exists (tick s2), req, r, text, result. repeat (split; [done|]).
      intros Hcacheable Hsuccess Hset.
      rewrite (cache_write_stores _ key _ s3 v Hcacheable Hv Hsuccess Hset) in Hrun4.
      injection Hrun4 as <-. simpl. by rewrite lookup_insert_eq.
Qed.

(** The cache write, in full: it changes nothing but, at most, the entry
    under the cache key, and it throws only when the result is [null] or
    [undefined], with the error [extractResponseData] throws on it. *)
Lemma cache_write_run endpoint key result s :
  exists o s',
    cache_write endpoint key result s = (o, s') /\
    requests s' = requests s /\
    discoveredBackendUrl s' = discoveredBackendUrl s /\
    (storage s' = storage s \/
     exists data,
       o = Ret tt /\ extractResponseData result = Ret data /\
       cacheable endpoint = true /\
       storage s'
       = <[key := JSON_stringify (cache_entry data (clock (tick s)))]> (storage s)) /\
    (forall e, o = Throw e -> extractResponseData result = Throw e).
Proof.
  unfold cache_write. destruct (cacheable endpoint) eqn:Hc.
  2: { eexists _, _. split; [done|]. repeat split; [by left | done]. }
  unfold bind at 1, lift.
  destruct (read_prop result "success") as [success|e] eqn:Hsuccess.
  2: { eexists _, _. split; [done|]. repeat split; [by left|].
       intros e' [= <-]. unfold extractResponseData. by rewrite Hsuccess. }
  destruct (is_undefined success || is_true success).
  2: { eexists _, _. split; [done|]. repeat split; [by left | done]. }
  destruct (extractResponseData_defined _ _ Hsuccess) as [data Hdata].
  unfold try_catch, bind, lift, Date_now, AsyncStorage_setItem. rewrite Hdata.
  destruct (setItem_rejects (tick s)); eexists _, _; (split; [done|]); simpl.
  - repeat split; [by left | done].
  - repeat split; [right; by exists data | done].
Qed.

Lemma ensure_backend_known s :
  truthy_str (discoveredBackendUrl s) = true -> ensure_backend s = (Ret tt, s).
Proof. intros H. unfold ensure_backend, bind, get_discovered. by rewrite H. Qed.

Lemma truthy_str_true o :
  truthy_str o = true -> exists base, o = Some base /\ base <> EmptyString.
Proof.
  destruct o as [base|]; [|done]. simpl. intros H. exists base. split; [done|].
  apply String.eqb_neq. by destruct (String.eqb base EmptyString).
Qed.

Lemma api_url_nonempty base endpoint :
  base <> EmptyString -> api_url base endpoint <> EmptyString.
Proof.
  intros Hbase. unfold api_url.
  destruct (endsWith base "/api"); [|destruct (endsWith base "/")]; by destruct base.
Qed.

(** With the backend known, [remote_call] does no discovery: it sends the
    one request, to the URL built from the known base, and makes of the
    world's answer what [result_of_answer] says. *)
Lemma remote_call_known endpoint method payload key s base :
  discoveredBackendUrl s = Some base -> base <> EmptyString ->
  let req := api_request method payload (api_url base endpoint) in
  let run := remote_call endpoint method payload key s in
  requests run.2 = requests s ++ [req] /\
  run.1 = result_of_answer (fetch_answer (tick s) req) /\
  discoveredBackendUrl run.2 = Some base.
Proof.
  intros Hbase Hne req run.
  assert (exists s',
             remote_call endpoint method payload key s
             = (result_of_answer (fetch_answer (tick s) req), s') /\
             requests s' = requests s ++ [req] /\
             discoveredBackendUrl s' = Some base) as (s' & Hrun & ? & ?);
    [|by unfold run; rewrite Hrun].
  unfold remote_call.
  assert (truthy_str (discoveredBackendUrl s) = true) as Hknown.
  { rewrite Hbase. by apply truthy_str_Some. }
  rewrite (bind_ret _ _ _ _ _ (ensure_backend_known s Hknown)).
  unfold bind at 1, get_discovered. rewrite Hbase.
  erewrite bind_ret; [|by apply getApiUrl_known].
  rewrite truthy_str_Some by (by apply api_url_nonempty). simpl.
  fold (api_request method payload (api_url base endpoint)). fold req.
  unfold bind at 1, fetch.
  destruct (fetch_answer (tick s) req) as [msg|r]; [by eexists|]. simpl.
  destruct (ok r); simpl.
  2: { unfold bind, response_text, throw, ret. destruct (body r); by eexists. }
  unfold bind at 1, response_json.
  destruct (body r) as [text|]; [|by eexists].
  destruct (JSON_parse text) as [result|]; [|by eexists].
  unfold ret at 1.
  destruct (cache_write_run endpoint key result (advance (with_request req s)))
    as (o & s' & Hrun & Hrequests & Hdiscovered & _ & Hthrow).
  destruct o as [[]|e].
  - rewrite (bind_ret _ _ _ _ _ Hrun). unfold lift.
    eexists. split; [done|]. by rewrite Hrequests, Hdiscovered.
  - rewrite (bind_throw _ _ _ _ _ Hrun).
    eexists. split; [by rewrite (Hthrow e)|]. by rewrite Hrequests, Hdiscovered.
Qed.

(** With no backend known, [remote_call] starts with a discovery: an error
    of the discovery is the error of the call; when it finds nothing the
    call fails; when it finds a backend, the module remembers it and the
    call goes on as with a known backend. *)
Lemma remote_call_unknown endpoint method payload key s :
  truthy_str (discoveredBackendUrl s) = false ->
  match discoverBackendUrl s with
  | (Ret (Some base), s1) =>
      remote_call endpoint method payload key s
      = remote_call endpoint method payload key (with_discovered (Some base) s1)
  | (Ret None, s1) =>
      remote_call endpoint method payload key s
      = (Throw "Cannot connect to backend server", with_discovered None s1)
  | (Throw e, s1) => remote_call endpoint method payload key s = (Throw e, s1)
  end.
Proof.
  intros Hunknown.
  destruct (discoverBackendUrl s) as [[[base|]|e] s1] eqn:Hrun.
  - pose proof (discover_result_nonempty _ _ _ Hrun) as Hne.
    unfold remote_call at 1. unfold ensure_backend, bind at 1 2, get_discovered at 1.
    rewrite Hunknown. simpl. unfold bind at 1. rewrite Hrun.
    rewrite (truthy_str_Some base) by done. simpl.
    unfold remote_call.
    by rewrite (bind_ret _ _ _ _ _
                  (ensure_backend_known (with_discovered (Some base) s1)
                     ltac:(by apply truthy_str_Some))).
  - unfold remote_call, ensure_backend, bind, get_discovered.
    rewrite Hunknown. simpl. by rewrite Hrun.
  - unfold remote_call, ensure_backend, bind, get_discovered.
    rewrite Hunknown. simpl. by rewrite Hrun.
Qed.

Lemma callApi_enabled endpoint method payload s :
  USE_BACKEND_GENERATION = true ->
  callApi endpoint method payload s
  = bind (cache_read endpoint (cacheKey_of endpoint payload))
         (fun hit => match hit with
                     | Some data => ret data
                     | None => remote_call endpoint method payload
                                           (cacheKey_of endpoint payload)
                     end) s.
Proof. intros Huse. unfold callApi. rewrite try_rethrow. by rewrite Huse. Qed.

(** Reading a well-formed Cache Entry: a hit when it is fresh, a miss when
    it is not; either way one storage read and nothing else. *)
Lemma cache_read_entry endpoint key s text data t :
  endpoint <> "motivational-message" ->
  getItem_rejects (tick s) = false ->
  storage s !! key = Some text ->
  text <> EmptyString ->
  JSON_parse text = Some (cache_entry data t) ->
  cache_read endpoint key s
  = (Ret (if (clock (S (tick s)) - t <? CACHE_EXPIRY)%Z then Some data else None),
     advance s).
Proof.
  intros Hep Hget Hkey Htext Hparse.
  unfold cache_read. rewrite cacheable_true by done.
  unfold try_catch, bind, AsyncStorage_getItem. rewrite Hget, Hkey.
  rewrite truthy_str_Some by done. simpl. rewrite Hparse. simpl.
  unfold not_expired. simpl.
  by destruct (clock (S (tick s)) - t <? CACHE_EXPIRY)%Z.
Qed.

(** C3. A cacheable call (remote generation enabled, an endpoint other than
    the motivational message) that reads a Cache Entry with timestamp [t],
    [now] being the clock right after the storage read.

    When [now - t < ttl] the entry's data is the result, after the one
    storage read and nothing else.

    When [now - t >= ttl] the call goes on exactly as after a miss.  With
    the backend known it sends the request for the endpoint and the payload
    to that backend, and its result is what the answer holds, not the
    entry.  With no backend known it runs the discovery: when that finds a
    backend the request goes there, with the same result; when it finds
    none the call fails, as it does when the discovery throws.  The entry
    is still there afterwards, as it was or overwritten by the new result.

    So a value comes back without a request exactly when [now - t < ttl].
    The ttl is the configured number of hours, and 24 hours when none is
    configured. *)
Theorem C3_cache_entry_expiry endpoint method payload s text data t :
  USE_BACKEND_GENERATION = true ->
  endpoint <> "motivational-message" ->
  getItem_rejects (tick s) = false ->
  storage s !! cacheKey_of endpoint payload = Some text ->
  text <> EmptyString ->
  JSON_parse text = Some (cache_entry data t) ->
  let now := clock (S (tick s)) in
  let key := cacheKey_of endpoint payload in
  let run := callApi endpoint method payload s in
  let request base := api_request method payload (api_url base endpoint) in
  (now - t < CACHE_EXPIRY -> run = (Ret data, advance s)) /\
  (now - t >= CACHE_EXPIRY ->
     run = remote_call endpoint method payload key (advance s) /\
     (forall base,
         discoveredBackendUrl s = Some base -> base <> EmptyString ->
         requests run.2 = requests s ++ [request base] /\
         run.1 = result_of_answer (fetch_answer (S (tick s)) (request base))) /\
     (truthy_str (discoveredBackendUrl s) = false ->
      match discoverBackendUrl (advance s) with
      | (Ret (Some base), s1) =>
          requests run.2 = requests s1 ++ [request base] /\
          run.1 = result_of_answer (fetch_answer (tick s1) (request base))
      | (Ret None, s1) =>
          run = (Throw "Cannot connect to backend server", with_discovered None s1)
      | (Throw e, s1) => run = (Throw e, s1)
      end) /\
     (forall v, run.1 = Ret v ->
                (length (requests s) < length (requests run.2))%nat) /\
     (storage run.2 !! key = Some text \/
      exists v t', run.1 = Ret v /\
                   storage run.2 !! key = Some (JSON_stringify (cache_entry v t')))) /\
  ((exists v, run.1 = Ret v /\ requests run.2 = requests s)
   <-> now - t < CACHE_EXPIRY) /\
  (EXPO_PUBLIC_CACHE_EXPIRY_HOURS = None -> CACHE_EXPIRY = 24 * 60 * 60 * 1000) /\
  (forall hours,
      EXPO_PUBLIC_CACHE_EXPIRY_HOURS = Some hours -> hours <> 0 ->
      CACHE_EXPIRY = hours * 3600000).
Proof.
  intros Huse Hep Hget Hkey Htext Hparse now key run request.
  assert (now - t < CACHE_EXPIRY -> run = (Ret data, advance s)) as Hfresh.
  { intros Hlt. unfold run. rewrite callApi_enabled by done.
    erewrite bind_ret; [|by eapply cache_read_entry].
    apply Z.ltb_lt in Hlt. fold now. by rewrite Hlt. }
  assert (now - t >= CACHE_EXPIRY ->
          run = remote_call endpoint method payload key (advance s)) as Hstale.
  { intros Hge. unfold run. rewrite callApi_enabled by done.
    erewrite bind_ret; [|by eapply cache_read_entry].
    fold now. assert ((now - t <? CACHE_EXPIRY)%Z = false) as -> by (apply Z.ltb_ge; lia).
    done. }
  assert (now - t >= CACHE_EXPIRY ->
          (forall v, run.1 = Ret v ->
                     (length (requests s) < length (requests run.2))%nat) /\
          (storage run.2 !! key = Some text \/
           exists v t', run.1 = Ret v /\
             storage run.2 !! key = Some (JSON_stringify (cache_entry v t'))))
    as Hremote.
  { intros Hge. specialize (Hstale Hge).
    destruct run as [o s'] eqn:Hrun. simpl. symmetry in Hstale.
    destruct (remote_call_effect _ _ _ _ _ _ _ (cacheKey_not_backend_url _ _) Hstale)
      as (_ & Hentry & Hret).
    split.
    - intros v Hv. by destruct (Hret v Hv) as [? _].
    - unfold key in *. destruct Hentry as [Hsame|Hnew]; [left | by right].
      by rewrite Hsame. }
  split; [done|]. split.
  { intros Hge. split; [by apply Hstale|]. split; [|split; [|by apply Hremote]].
    - intros base Hbase Hne. rewrite (Hstale Hge).
      destruct (remote_call_known endpoint method payload key (advance s) base
                  Hbase Hne) as (Hrequests & Hresult & _).
      done.
    - intros Hunknown. rewrite (Hstale Hge).
      pose proof (remote_call_unknown endpoint method payload key (advance s)
                    Hunknown) as Hrun.
      destruct (discoverBackendUrl (advance s)) as [[[base|]|e] s1] eqn:Hfound;
        [|done..].
      rewrite Hrun.
      destruct (remote_call_known endpoint method payload key
                  (with_discovered (Some base) s1) base eq_refl
                  (discover_result_nonempty _ _ _ Hfound))
        as (Hrequests & Hresult & _).
      done. }
  split; [|split].
  - split.
    + intros (v & Hv & Hreq).
      destruct (Z.lt_ge_cases (now - t) CACHE_EXPIRY) as [?|Hge]; [done|].
      destruct (Hremote ltac:(lia)) as [Hgrow _].
      specialize (Hgrow v Hv). rewrite Hreq in Hgrow. lia.
    + intros Hlt. exists data. by rewrite (Hfresh Hlt).
  - intros Hcfg. unfold CACHE_EXPIRY. by rewrite Hcfg.
  - intros hours Hcfg Hnonzero. unfold CACHE_EXPIRY. rewrite Hcfg.
    apply Z.eqb_neq in Hnonzero as ->. lia.
Qed.




(** ** The fallback generators *)








(** ** Conversion to text *)






(** ** The fallback generators, continued *)








(** ** The gateway operations *)








(** Without connectivity and without a cached answer the remote call fails. *)
Lemma offline_callApi_throws endpoint method payload s :
  (forall n req, exists msg, fetch_answer n req = NetworkError msg) ->
  storage s !! cacheKey_of endpoint payload = None ->
  exists e s', callApi endpoint method payload s = (Throw e, s').
Proof.
  intros Hoffline Hmiss. unfold callApi. rewrite try_rethrow.
  destruct USE_BACKEND_GENERATION; [|by eexists _, _]. simpl.
  assert (exists s1, cache_read endpoint (cacheKey_of endpoint payload) s = (Ret None, s1))
    as [s1 Hread].
  { unfold cache_read. destruct (cacheable endpoint); [|by eexists].
    unfold try_catch, bind, AsyncStorage_getItem. rewrite Hmiss.
    destruct (getItem_rejects (tick s)); by eexists. }
  rewrite (bind_ret _ _ _ _ _ Hread).
  destruct (remote_call endpoint method payload (cacheKey_of endpoint payload) s1)
    as [[v|e] s'] eqn:Hrun; [|by eexists _, _].
  destruct (remote_call_effect _ _ _ _ _ _ _ (cacheKey_not_backend_url _ _) Hrun)
    as (_ & _ & Hret).
  destruct (Hret v eq_refl) as (_ & n & req & r & _ & _ & Hans & _).
  destruct (Hoffline n req) as [msg Hmsg]. congruence.
Qed.

(** C9. For achievement type "First Quest" with milestone 1 the fallback
    badge is exactly the table entry: name "Brave First Step", description
    "You completed your first quest and began your adventure!", icon "boot";
    when the remote call fails, as it does without connectivity, the
    operation returns that badge with the flag isAIGenerated set to false. *)
Theorem C9_first_quest_badge s e s1 :
  callApi "achievement-badge" "POST"
    (JObj [("achievementType", JStr "First Quest"); ("milestone", JNum 1)]) s
  = (Throw e, s1) ->
  fallbackGenerateAchievementBadge (JStr "First Quest") (JNum 1)
  = Ret (Own (JObj [("badgeName", JStr "Brave First Step");
                    ("badgeDescription",
                     JStr "You completed your first quest and began your adventure!");
                    ("iconType", JStr "boot")])) /\
  exists s',
    generateAchievementBadge (JStr "First Quest") (JNum 1) s
    = (Ret (JObj [("badgeName", JStr "Brave First Step");
                  ("badgeDescription",
                   JStr "You completed your first quest and began your adventure!");
                  ("iconType", JStr "boot");
                  ("isAIGenerated", JBool false)]), s').
Proof.
  intros Hfail. split; [done|].
  unfold generateAchievementBadge, try_catch. unfold bind at 1, lift at 1. simpl.
  destruct USE_BACKEND_GENERATION.
  - rewrite (bind_throw _ _ _ _ _ Hfail). by eexists.
  - by eexists.
Qed.

(** The guard that should keep motivational messages out of the cache
    compares the endpoint with the bare name, but the endpoint passed in
    always carries the random query: the guard never applies. *)
Lemma unique_endpoint_cacheable r : cacheable (unique_endpoint r) = true.
Proof. unfold cacheable. rewrite ENABLE_API_CACHE_true. done. Qed.

End Properties.

(** * Runs on concrete inputs *)

Section Runs.
Import Scenario.
Local Existing Instance Reference.platform.







(** C5, the code against its own comments ("Don't cache motivational
    messages"): with the backend up, a motivational-message call stores a
    Cache Entry under a key built from its random endpoint; a second call
    with the same draw, five minutes later and with the network gone, is
    answered from that entry without any request. *)
Theorem C5_motivational_message_is_cached :
  let key := cacheKey_of (unique_endpoint (2 ^ 52)%N) JNull in
  let first := generateMotivationalMessage (C := enabled) (W := online) fresh_start in
  let second := generateMotivationalMessage (C := enabled)
                  (W := offline_at (epoch + minutes 5)) first.2 in
  storage fresh_start !! key = None /\
  first.1 = Ret (JStr "Onward!") /\
  storage first.2 !! key
  = Some (JSON_stringify
            (cache_entry (JObj [("motivationalMessage", JStr "Onward!")]) (epoch + 7))) /\
  second.1 = Ret (JStr "Onward!") /\
  requests second.2 = requests first.2.
Proof. vm_compute. repeat split. Qed.

(** C6, the claim as stated fails: a server answers the health check with
    status 200 and the body [null]; the body parses, it is no health
    payload (no status, message, version or endpoints), and the probe
    answers true all the same. *)
Lemma C6_payload_is_not_inspected :
  exists s',
    isUrlReachable (W := bare_server) "http://localhost:3000/api" fresh_start
    = (Ret true, s') /\
    requests s' = [health_request "http://localhost:3000/api"] /\
    fetch_answer (World := bare_server) 0 (health_request "http://localhost:3000/api")
    = Answer {| status := 200; body := Some "null" |} /\
    JSON_parse "null" = Some JNull /\
    expected_health_payload JNull = false.
Proof. eexists. vm_compute. repeat split. Qed.

Lemma C7_candidate_list_witness :
  EXPO_PUBLIC_API_URL (Config := overridden) = Some "https://quests.example/api" /\
  head (getPossibleServerUrls (C := overridden)) = Some "https://quests.example/api".
Proof.
  split; [reflexivity|].
  apply (C7_candidate_list (C := overridden)); [reflexivity | discriminate].
Defined.

Lemma C8_no_network_short_circuit_witness :
  discoverBackendUrl (C := enabled) (W := offline) fresh_start
  = (Ret None, advance (check_cached_url (W := offline) fresh_start).2).
Proof.
  apply (C8_no_network_short_circuit (C := enabled) (W := offline) fresh_start);
    reflexivity.
Defined.

Lemma C9_first_quest_badge_witness :
  exists s',
    generateAchievementBadge (C := enabled) (W := offline)
      (JStr "First Quest") (JNum 1) fresh_start
    = (Ret (JObj [("badgeName", JStr "Brave First Step");
                  ("badgeDescription",
                   JStr "You completed your first quest and began your adventure!");
                  ("iconType", JStr "boot");
                  ("isAIGenerated", JBool false)]), s').
Proof.
  eapply (C9_first_quest_badge (C := enabled) (W := offline) fresh_start).
  vm_compute. reflexivity.
Defined.

Lemma C3_cache_entry_expiry_witness :
  let key := cacheKey_of "transform-task" quest_payload in
  (* an entry written at [epoch], read 23 hours and 59 minutes later *)
  (let s := with_entry key (JSON_stringify (cache_entry older_quest epoch)) in
   callApi (C := enabled) (W := offline_at (epoch + minutes (23 * 60 + 59)))
     "transform-task" "POST" quest_payload s
   = (Ret older_quest, advance s)) /\
  (* an entry read 24 hours and 1 minute after it was written, the backend
     being known and up *)
  (let written := epoch + 1 - minutes (24 * 60 + 1) in
   let s := discovered_with_entry key
              (JSON_stringify (cache_entry older_quest written)) in
   let run := callApi (C := enabled) (W := online)
                "transform-task" "POST" quest_payload s in
   requests run.2
   = [api_request "POST" quest_payload "http://localhost:3000/api/transform-task"] /\
   run.1 = Ret cached_quest) /\
  (* two hours configured *)
  CACHE_EXPIRY (C := short_lived) = 2 * 3600000.
Proof.
  intros key. split; [|split].
  - apply (C3_cache_entry_expiry (C := enabled)
             (W := offline_at (epoch + minutes (23 * 60 + 59)))
             "transform-task" "POST" quest_payload
             (with_entry key (JSON_stringify (cache_entry older_quest epoch)))
             (JSON_stringify (cache_entry older_quest epoch)) older_quest epoch);
      [reflexivity | discriminate | reflexivity | vm_compute; reflexivity
      | vm_compute; discriminate | vm_compute; reflexivity | vm_compute; reflexivity].
  - intros written s run.
    destruct (C3_cache_entry_expiry (C := enabled) (W := online)
                "transform-task" "POST" quest_payload s
                (JSON_stringify (cache_entry older_quest written)) older_quest written)
      as (_ & Hstale & _);
      [reflexivity | discriminate | reflexivity | vm_compute; reflexivity
      | vm_compute; discriminate | vm_compute; reflexivity |].
    destruct Hstale as (_ & Hknown & _); [vm_compute; discriminate|].
    destruct (Hknown "http://localhost:3000/api" eq_refl ltac:(discriminate))
      as [Hrequests Hresult].
    split; [exact Hrequests|].
    unfold run. rewrite Hresult. vm_compute. reflexivity.
  - apply (C3_cache_entry_expiry (C := short_lived) (W := offline)
             "transform-task" "POST" quest_payload
             (with_entry key (JSON_stringify (cache_entry older_quest epoch)))
             (JSON_stringify (cache_entry older_quest epoch)) older_quest epoch);
      [reflexivity | discriminate | reflexivity | vm_compute; reflexivity
      | vm_compute; discriminate | vm_compute; reflexivity | reflexivity
      | discriminate].
Defined.

(** C10, the claim as stated fails: the backend answers with data 1e400,
    which [JSON.parse] reads as Infinity; the call returns Infinity; the
    entry it stores holds [null], the JSON text of Infinity; the next call
    hits that entry and returns [null]. *)
Lemma C10_infinity_comes_back_as_null :
  let key := cacheKey_of "transform-task" quest_payload in
  let first := callApi (C := enabled) (W := overflowing)
                 "transform-task" "POST" quest_payload discovered in
  let second := callApi (C := enabled) (W := overflowing)
                  "transform-task" "POST" quest_payload first.2 in
  JSON_parse overflowing_text
  = Some (JObj [("success", JBool true); ("data", JInfinity false)]) /\
  first.1 = Ret (JInfinity false) /\
  length (requests first.2) = 1%nat /\
  storage first.2 !! key = Some (JSON_stringify (cache_entry JNull (epoch + 2))) /\
  second.1 = Ret JNull /\
  requests second.2 = requests first.2.
Proof. vm_compute. repeat split. Qed.


End Runs.
